(** * dev/make_requirements.py: requirement files, parsed and deduplicated

    A shallow embedding of the script that regenerates the five pinned
    requirement files of the project ([base.txt], [production.txt],
    [development.txt], [testing.txt], [all.txt]) and removes from each
    derived file what its parent already pins.

    Text is a [string] of 8-bit characters, read as code points below 256.
    A mapping [dict[str, list[str]]] is an association list in insertion
    order, since the script depends on the order in which Python's [dict]
    iterates.  Effects (the disk, the spawned commands, the printed line)
    are threaded through a state-and-exception monad, with a trace of what
    the process did.  Files are read in universal-newline mode and written
    as they are (the line separator of the platform is the line feed).
    The resolver [uv] is a parameter: any function from a command line and
    the surroundings to an exit status and new surroundings. *)

From Stdlib Require Import List String Ascii Bool Arith ZArith Lia.
From Stdlib Require Import Permutation.
Import ListNotations.
Local Open Scope list_scope.
Local Open Scope string_scope.

Set Implicit Arguments.

(** ** Characters and the [str] methods the parser calls *)

Definition LF : ascii := "010"%char.
Definition CR : ascii := "013"%char.
Definition TAB : ascii := "009"%char.
Definition nl : string := String LF "".

(** [str.isspace] on one character, for code points below 256:
    TAB, LF, VT, FF, CR, FS, GS, RS, US, SPACE, NEL and NBSP. *)
Definition is_space (c : ascii) : bool :=
  let n := nat_of_ascii c in
  (Nat.leb 9 n && Nat.leb n 13) || (Nat.leb 28 n && Nat.leb n 32)
  || Nat.eqb n 133 || Nat.eqb n 160.

Fixpoint lstrip (s : string) : string :=
  match s with
  | "" => ""
  | String c s' => if is_space c then lstrip s' else s
  end.

Fixpoint rstrip (s : string) : string :=
  match s with
  | "" => ""
  | String c s' =>
      match rstrip s' with
      | "" => if is_space c then "" else String c ""
      | r => String c r
      end
  end.

(** [s.strip()] *)
Definition strip (s : string) : string := lstrip (rstrip s).

(** [s.startswith(p)] *)
Fixpoint startswith (s p : string) : bool :=
  match p, s with
  | "", _ => true
  | String a p', String b s' => Ascii.eqb a b && startswith s' p'
  | String _ _, "" => false
  end.

(** Truth value of a [str]: the empty string is false. *)
Definition truthy (s : string) : bool :=
  match s with "" => false | _ => true end.

(** Truth value of [current_package], which is [None] or a [str]. *)
Definition truthy_opt (o : option string) : bool :=
  match o with None => false | Some s => truthy s end.

(** [''.join(parts)] *)
Definition join (parts : list string) : string :=
  fold_right String.append "" parts.

(** ** Reading a text file line by line

    [open(path, "r")] reads in universal-newline mode: CR LF and a lone CR
    both arrive as LF.  Iterating the file yields each line with its
    terminating LF, the last line without one when the file does not end
    in LF. *)

Fixpoint universal_newlines (s : string) : string :=
  match s with
  | "" => ""
  | String c s' =>
      if Ascii.eqb c CR then
        match s' with
        | String c' s'' =>
            if Ascii.eqb c' LF then String LF (universal_newlines s'')
            else String LF (universal_newlines s')
        | "" => String LF ""
        end
      else String c (universal_newlines s')
  end.

Fixpoint splitlines (s : string) : list string :=
  match s with
  | "" => []
  | String c s' =>
      if Ascii.eqb c LF then nl :: splitlines s'
      else match splitlines s' with
           | [] => [String c ""]
           | l :: ls => String c l :: ls
           end
  end.

(** [for line in f] over a file holding [text]. *)
Definition file_lines (text : string) : list string :=
  splitlines (universal_newlines text).

(** ** [defaultdict(list)] in insertion order *)

Definition Packages := list (string * list string).

Definition keys (d : Packages) : list string := map fst d.
Definition values (d : Packages) : list (list string) := map snd d.

(** [k in d] *)
Definition contains (k : string) (d : Packages) : bool :=
  existsb (String.eqb k) (keys d).

(** [d.get(k)] *)
Fixpoint lookup (k : string) (d : Packages) : option (list string) :=
  match d with
  | [] => None
  | (k', b) :: d' => if String.eqb k k' then Some b else lookup k d'
  end.

(** [d[k].append(line)]: a missing key is first inserted, at the end, with
    an empty list; an existing key keeps its position. *)
Fixpoint dict_append (k line : string) (d : Packages) : Packages :=
  match d with
  | [] => [(k, [line])]
  | (k', b) :: d' =>
      if String.eqb k k' then (k', (b ++ [line])%list) :: d'
      else (k', b) :: dict_append k line d'
  end.

(** [{k: v for k, v in d.items() if k not in excl...}] *)
Definition without (excl : list Packages) (d : Packages) : Packages :=
  filter (fun kv => forallb (fun e => negb (contains (fst kv) e)) excl) d.

(** ** Exceptions *)

Inductive ReqFile := Base | Production | Development | Testing | All.

Inductive exn :=
| ValueError (msg : string)
| FileNotFoundError (f : ReqFile)
| CalledProcessError (returncode : Z) (cmd : list string).

Definition unexpected_indentation : exn :=
  ValueError "Unexpected indentation in requirements file".

(** ** The loop of [parse_requirements]

    The loop's state is the pair of its two variables, [packages] and
    [current_package]; an exception leaves the loop at once. *)

(** The first test of the loop body: a blank or comment line. *)
Definition blank_or_comment (line : string) : bool :=
  negb (truthy (strip line)) || startswith (strip line) "#".

Fixpoint parse_loop (lines : list string) (packages : Packages)
    (current_package : option string)
    : exn + (Packages * option string) :=
  match lines with
  | [] => inr (packages, current_package)
  | line :: rest =>
      if negb (truthy_opt current_package) && blank_or_comment line then
        parse_loop rest packages current_package
      else if startswith line " " then
        match current_package with
        | Some cp =>
            if truthy cp then
              parse_loop rest (dict_append cp line packages) current_package
            else inl unexpected_indentation
        | None => inl unexpected_indentation
        end
      else parse_loop rest (dict_append line line packages) (Some line)
  end.

(** The function on the text of the file: the loop from the empty mapping
    and [current_package = None], returning [packages]. *)
Definition parse_text (text : string) : exn + Packages :=
  match parse_loop (file_lines text) [] None with
  | inl e => inl e
  | inr (packages, _) => inr packages
  end.

(** ** Paths

    A [pathlib.Path] is its list of components below the filesystem root.
    The script is run by its absolute location, so [absolute()] leaves the
    paths below as they are. *)

Definition Path := list string.

(** [p.parent] *)
Definition parent (p : Path) : Path := removelast p.

(** [p / name] *)
Definition div (p : Path) (name : string) : Path := (p ++ [name])%list.

(** [p.relative_to(other)]: [None] stands for the [ValueError] that pathlib
    raises when [other] is not a prefix of [p]. *)
Fixpoint relative_to (p other : Path) : option Path :=
  match other, p with
  | [], _ => Some p
  | o :: other', c :: p' =>
      if String.eqb o c then relative_to p' other' else None
  | _ :: _, [] => None
  end.

(** [str(p)] for a relative path. *)
Fixpoint str_relative (p : Path) : string :=
  match p with
  | [] => "."
  | [c] => c
  | c :: p' => c ++ "/" ++ str_relative p'
  end.

(** [str(p)] for an absolute path. *)
Definition str_absolute (p : Path) : string :=
  match p with
  | [] => "/"
  | _ => join (map (fun c => "/" ++ c) p)
  end.

Definition not_in_subpath : exn :=
  ValueError "path is not in the subpath of the other path".

(** ** The world the script runs in *)

(** The five requirement files on disk; [None] is a file that does not
    exist. *)
Record FS := mkFS {
  base_txt : option string;
  production_txt : option string;
  development_txt : option string;
  testing_txt : option string;
  all_txt : option string
}.

Definition read_file (f : ReqFile) (d : FS) : option string :=
  match f with
  | Base => base_txt d
  | Production => production_txt d
  | Development => development_txt d
  | Testing => testing_txt d
  | All => all_txt d
  end.

Definition store_file (f : ReqFile) (text : string) (d : FS) : FS :=
  match f with
  | Base =>
      mkFS (Some text) (production_txt d) (development_txt d) (testing_txt d)
        (all_txt d)
  | Production =>
      mkFS (base_txt d) (Some text) (development_txt d) (testing_txt d)
        (all_txt d)
  | Development =>
      mkFS (base_txt d) (production_txt d) (Some text) (testing_txt d)
        (all_txt d)
  | Testing =>
      mkFS (base_txt d) (production_txt d) (development_txt d) (Some text)
        (all_txt d)
  | All =>
      mkFS (base_txt d) (production_txt d) (development_txt d) (testing_txt d)
        (Some text)
  end.

(** What the process does to its surroundings, in the order it does it. *)
Inductive event :=
| EvSpawn (cmd : list string)
| EvOpen (f : ReqFile)
| EvWrite (f : ReqFile)
| EvPrint (line : string).

Section Script.

(** Everything outside the five files that the resolver reads or changes
    (the manifest, the lock file, its cache, the network). *)
Variable Ext : Type.

(** The external resolver: a command line run on the surroundings gives an
    exit status and the surroundings it leaves. *)
Variable spawn : list string -> Ext * FS -> Z * (Ext * FS).

(** The directory that holds [dev/make_requirements.py] two levels down:
    the components of the checkout's absolute location. *)
Variable root : Path.

Record World := mkWorld {
  disk : FS;
  outside : Ext;
  trace : list event
}.

(** *** The state-and-exception monad *)

Definition IO (A : Type) : Type := World -> World * (exn + A).

Definition ret {A} (a : A) : IO A := fun w => (w, inr a).

Definition raise {A} (e : exn) : IO A := fun w => (w, inl e).

Definition bind {A B} (m : IO A) (k : A -> IO B) : IO B :=
  fun w =>
    match m w with
    | (w', inl e) => (w', inl e)
    | (w', inr a) => k a w'
    end.

Notation "x <- m ;; k" := (bind m (fun x => k))
  (at level 61, m at next level, right associativity).
Notation "m ;; k" := (bind m (fun _ => k))
  (at level 61, right associativity).

(** [for x in xs: body(x)] *)
Fixpoint for_each {A} (xs : list A) (body : A -> IO unit) : IO unit :=
  match xs with
  | [] => ret tt
  | x :: xs' => body x ;; for_each xs' body
  end.

(** *** Primitive effects *)

(** [open(path, "r")] and reading the whole file through the iterator.
    A file is absent or holds text: of the errors of the operating system
    only the missing file is modelled, not a file that cannot be decoded
    or opened. *)
Definition open_read (f : ReqFile) : IO string :=
  fun w =>
    match read_file f (disk w) with
    | Some text =>
        (mkWorld (disk w) (outside w) (trace w ++ [EvOpen f])%list, inr text)
    | None => (w, inl (FileNotFoundError f))
    end.

(** [path.write_text(content)], on a file that can be written. *)
Definition write_text (f : ReqFile) (content : string) : IO unit :=
  fun w =>
    (mkWorld (store_file f content (disk w)) (outside w)
       (trace w ++ [EvWrite f])%list, inr tt).

(** [subprocess.run(cmd, check=True)], for a resolver that can be
    started: every command comes back with an exit status. *)
Definition subprocess_run (cmd : list string) : IO unit :=
  fun w =>
    let '(returncode, (e, d)) := spawn cmd (outside w, disk w) in
    let w' := mkWorld d e (trace w ++ [EvSpawn cmd])%list in
    if Z.eqb returncode 0 then (w', inr tt)
    else (w', inl (CalledProcessError returncode cmd)).

(** [print(line)] *)
Definition print (line : string) : IO unit :=
  fun w =>
    (mkWorld (disk w) (outside w) (trace w ++ [EvPrint line])%list, inr tt).

(** *** Module constants *)

Definition SCRIPT : Path := div (div root "dev") "make_requirements.py".
Definition PROJECT_ROOT : Path := parent (parent SCRIPT).
Definition REQUIREMENTS_DIR : Path :=
  div (div PROJECT_ROOT "cvat") "requirements".
Definition BASE_REQUIREMENTS : Path := div REQUIREMENTS_DIR "base.txt".
Definition PRODUCTION_REQUIREMENTS : Path :=
  div REQUIREMENTS_DIR "production.txt".
Definition DEVELOPMENT_REQUIREMENTS : Path :=
  div REQUIREMENTS_DIR "development.txt".
Definition ALL_REQUIREMENTS : Path := div REQUIREMENTS_DIR "all.txt".
Definition TESTING_REQUIREMENTS : Path := div REQUIREMENTS_DIR "testing.txt".

Definition path_of (f : ReqFile) : Path :=
  match f with
  | Base => BASE_REQUIREMENTS
  | Production => PRODUCTION_REQUIREMENTS
  | Development => DEVELOPMENT_REQUIREMENTS
  | Testing => TESTING_REQUIREMENTS
  | All => ALL_REQUIREMENTS
  end.

(** *** [run_uv_commands] *)

Definition commands : list (list string) :=
  [ ["uv"; "lock"];
    ["uv"; "pip"; "compile"; "pyproject.toml"; "-o";
     str_absolute BASE_REQUIREMENTS];
    ["uv"; "pip"; "compile"; "pyproject.toml"; "--extra"; "production";
     "-o"; str_absolute PRODUCTION_REQUIREMENTS];
    ["uv"; "pip"; "compile"; "pyproject.toml"; "--extra"; "development";
     "-o"; str_absolute DEVELOPMENT_REQUIREMENTS];
    ["uv"; "pip"; "compile"; "pyproject.toml"; "--extra"; "testing";
     "-o"; str_absolute TESTING_REQUIREMENTS];
    ["uv"; "pip"; "compile"; "pyproject.toml"; "--all-extras";
     "-o"; str_absolute ALL_REQUIREMENTS] ].

Definition run_uv_commands : IO unit :=
  for_each commands subprocess_run.

(** *** [parse_requirements] *)

Definition parse_requirements (file_path : ReqFile) : IO Packages :=
  text <- open_read file_path ;;
  match parse_text text with
  | inl e => raise e
  | inr packages => ret packages
  end.

(** *** [write_requirements]

    As the pass calls it: the output and the parents are among the five
    files.  [General.write_requirements] below is the function on any
    paths. *)

Definition header_line (script : Path) : string :=
  "# This file was autogenerated via " ++ str_relative script ++ nl.

Definition include_line (rel : Path) : string :=
  "-r " ++ str_relative rel ++ nl.

(** The lines of every block, in the order [packages.values()] gives them. *)
Definition entry_lines (packages : Packages) : list string :=
  List.concat (values packages).

(** The parents' paths relative to [dir], left to right; [None] as soon as
    one of them is not below [dir]. *)
Fixpoint relative_parents (dir : Path) (parents : list ReqFile)
    : option (list Path) :=
  match parents with
  | [] => Some []
  | p :: ps =>
      match relative_to (path_of p) dir with
      | None => None
      | Some rel =>
          match relative_parents dir ps with
          | None => None
          | Some rels => Some (rel :: rels)
          end
      end
  end.

Definition write_requirements (output_path : ReqFile) (packages : Packages)
    (parents : list ReqFile) : IO unit :=
  match relative_to SCRIPT PROJECT_ROOT with
  | None => raise not_in_subpath
  | Some script =>
      match relative_parents (parent (path_of output_path)) parents with
      | None => raise not_in_subpath
      | Some rels =>
          let content :=
            join ([header_line script] ++ map include_line rels ++ [nl]
                  ++ entry_lines packages)%list in
          write_text output_path content
      end
  end.

(** *** [deduplicate_requirements] *)

Definition deduplicate_requirements : IO unit :=
  base_packages <- parse_requirements Base ;;
  write_requirements Base base_packages [] ;;
  prod_packages <- parse_requirements Production ;;
  let prod_unique := without [base_packages] prod_packages in
  write_requirements Production prod_unique [Base] ;;
  dev_packages <- parse_requirements Development ;;
  let dev_unique := without [base_packages] dev_packages in
  write_requirements Development dev_unique [Base] ;;
  test_packages <- parse_requirements Testing ;;
  let test_unique := without [base_packages; dev_packages] test_packages in
  write_requirements Testing test_unique [Development] ;;
  write_requirements All [] [Development; Production; Testing].

(** *** [main] *)

Definition main : IO unit :=
  run_uv_commands ;;
  deduplicate_requirements ;;
  print "Requirements files have been successfully processed.".

End Script.

Arguments mkWorld {Ext} _ _ _.
Arguments disk {Ext} _.
Arguments outside {Ext} _.
Arguments trace {Ext} _.
Arguments IO Ext A : clear implicits.


(** ** [write_requirements] on any paths

    The pass calls [write_requirements] on the five files above, which
    lie in one directory.  The function itself takes any output path and
    any parent paths: this is it, on files named by their path. *)

Module General.

(** The text files of a disk, by path. *)
Definition Files := Path -> option string.

(** [p == q] *)
Fixpoint path_eqb (p q : Path) : bool :=
  match p, q with
  | [], [] => true
  | a :: p', b :: q' => String.eqb a b && path_eqb p' q'
  | _, _ => false
  end.

(** The files after [path.write_text(text)]. *)
Definition store (path : Path) (text : string) (d : Files) : Files :=
  fun q => if path_eqb q path then Some text else d q.

(** [parent.relative_to(dir) for parent in parents], left to right;
    [None] stands for the [ValueError] of the first parent that is not
    below [dir]. *)
Fixpoint relative_parents (dir : Path) (parents : list Path)
    : option (list Path) :=
  match parents with
  | [] => Some []
  | p :: ps =>
      match relative_to p dir with
      | None => None
      | Some rel =>
          match relative_parents dir ps with
          | None => None
          | Some rels => Some (rel :: rels)
          end
      end
  end.

(** The string [content] that [write_requirements] builds, or the
    [ValueError] that [relative_to] raises while it is built. *)
Definition requirements_content (root output_path : Path)
    (packages : Packages) (parents : list Path) : exn + string :=
  match relative_to (SCRIPT root) (PROJECT_ROOT root) with
  | None => inl not_in_subpath
  | Some script =>
      match relative_parents (parent output_path) parents with
      | None => inl not_in_subpath
      | Some rels =>
          inr (join ([header_line script] ++ map include_line rels ++ [nl]
                     ++ entry_lines packages)%list)
      end
  end.

Definition write_requirements (root output_path : Path)
    (packages : Packages) (parents : list Path) (d : Files)
    : Files * (exn + unit) :=
  match requirements_content root output_path packages parents with
  | inl e => (d, inl e)
  | inr content => (store output_path content d, inr tt)
  end.

End General.

(** ** Vocabulary of the statements *)

Definition file_name (f : ReqFile) : string :=
  match f with
  | Base => "base.txt"
  | Production => "production.txt"
  | Development => "development.txt"
  | Testing => "testing.txt"
  | All => "all.txt"
  end.

(** The first line of every rewritten file. *)
Definition header_text : string :=
  "# This file was autogenerated via dev/make_requirements.py" ++ nl.

(** The include line for the parent [p]. *)
Definition include_text (p : ReqFile) : string :=
  "-r " ++ file_name p ++ nl.

(** The layout of a rewritten file: the header comment naming the script,
    one [-r] line per parent, a blank line, the blocks of the entries. *)
Definition requirements_text (packages : Packages) (parents : list ReqFile)
    : string :=
  "# This file was autogenerated via dev/make_requirements.py" ++ nl
  ++ join (map (fun p => "-r " ++ file_name p ++ nl) parents)
  ++ nl
  ++ join (entry_lines packages).

(** The world after [write_text f text]. *)
Definition written {Ext} (f : ReqFile) (text : string) (w : World Ext)
    : World Ext :=
  mkWorld (store_file f text (disk w)) (outside w)
    (trace w ++ [EvWrite f])%list.

(** The world after a successful [open_read f]. *)
Definition opened {Ext} (f : ReqFile) (w : World Ext) : World Ext :=
  mkWorld (disk w) (outside w) (trace w ++ [EvOpen f])%list.

(** The world that a complete run of [deduplicate_requirements] leaves
    when the four files it reads parse to [bp], [pp], [dp] and [tp]. *)
Definition deduplicated {Ext} (bp pp dp tp : Packages) (w : World Ext)
    : World Ext :=
  written All (requirements_text [] [Development; Production; Testing])
    (written Testing
       (requirements_text (without [bp; dp] tp) [Development])
       (opened Testing
          (written Development (requirements_text (without [bp] dp) [Base])
             (opened Development
                (written Production
                   (requirements_text (without [bp] pp) [Base])
                   (opened Production
                      (written Base (requirements_text bp [])
                         (opened Base w)))))))).

(** The file [f] exists on [d] and parses to [pk]. *)
Definition parsed_as (f : ReqFile) (d : FS) (pk : Packages) : Prop :=
  exists text, read_file f d = Some text /\ parse_text text = inr pk.

(** A line that begins with a whitespace character, of any kind. *)
Definition leading_whitespace (line : string) : bool :=
  match line with
  | "" => false
  | String c _ => is_space c
  end.


(** The first line of a file that the parser does not skip. *)
Definition first_content_line (lines : list string) : option string :=
  find (fun l => negb (blank_or_comment l)) lines.

(** A text whose first content line begins with a space. *)
Definition indented_start (text : string) : Prop :=
  exists l, first_content_line (file_lines text) = Some l /\
            startswith l " " = true.

(** A text whose first content line begins with whitespace of any kind. *)
Definition whitespace_start (text : string) : Prop :=
  exists l, first_content_line (file_lines text) = Some l /\
            leading_whitespace l = true.

(** The files that [deduplicate_requirements] has rewritten when it comes
    to read [f]. *)
Definition steps_before (f : ReqFile) : list ReqFile :=
  match f with
  | Base => []
  | Production => [Base]
  | Development => [Base; Production]
  | Testing => [Base; Production; Development]
  | All => [Base; Production; Development; Testing]
  end.

(** The mapping parsed from [f], when [f] exists and parses. *)
Definition mapping_of (f : ReqFile) (d : FS) : option Packages :=
  match read_file f d with
  | Some text =>
      match parse_text text with
      | inr pk => Some pk
      | inl _ => None
      end
  | None => None
  end.

(** What the deduplicator rewrites [f] to, from the files on [d]: base
    with its own entries and no parent; production and development with
    their entries absent from base, and base as parent; testing with its
    entries absent from base and from development, and development as
    parent; all with no entry and three parents. *)
Definition rewritten (d : FS) (f : ReqFile) : option string :=
  match f with
  | Base =>
      match mapping_of Base d with
      | Some bp => Some (requirements_text bp [])
      | None => None
      end
  | Production =>
      match mapping_of Base d, mapping_of Production d with
      | Some bp, Some pp => Some (requirements_text (without [bp] pp) [Base])
      | _, _ => None
      end
  | Development =>
      match mapping_of Base d, mapping_of Development d with
      | Some bp, Some dp => Some (requirements_text (without [bp] dp) [Base])
      | _, _ => None
      end
  | Testing =>
      match mapping_of Base d, mapping_of Development d,
            mapping_of Testing d with
      | Some bp, Some dp, Some tp =>
          Some (requirements_text (without [bp; dp] tp) [Development])
      | _, _, _ => None
      end
  | All => Some (requirements_text [] [Development; Production; Testing])
  end.

(** The lines of a file from its first content line on. *)
Fixpoint content_lines (lines : list string) : list string :=
  match lines with
  | [] => []
  | l :: rest => if blank_or_comment l then content_lines rest else lines
  end.

(** The lines that belong to the occurrences of the identifier line [k]:
    each line equal to [k], and each indented line that follows while [k]
    is the latest identifier line.  [cur] is the latest identifier line
    before [lines]. *)
Fixpoint occurrence_lines (k : string) (cur : option string)
    (lines : list string) : list string :=
  match lines with
  | [] => []
  | l :: rest =>
      if startswith l " " then
        match cur with
        | Some c =>
            if String.eqb c k then l :: occurrence_lines k cur rest
            else occurrence_lines k cur rest
        | None => occurrence_lines k cur rest
        end
      else if String.eqb l k then l :: occurrence_lines k (Some l) rest
      else occurrence_lines k (Some l) rest
  end.

(** The block of [k] in a mapping, empty when [k] is not a key. *)
Definition block_lines (k : string) (d : Packages) : list string :=
  match lookup k d with
  | Some b => b
  | None => []
  end.

(** How often [k] is in [lines]. *)
Definition count (k : string) (lines : list string) : nat :=
  count_occ string_dec lines k.

(** A line as the file iterator yields it: not empty, with no line feed
    before its last character. *)
Fixpoint no_lf (s : string) : bool :=
  match s with
  | "" => true
  | String c s' => negb (Ascii.eqb c LF) && no_lf s'
  end.

Fixpoint complete (s : string) : bool :=
  match s with
  | "" => false
  | String c "" => Ascii.eqb c LF
  | String c s' => negb (Ascii.eqb c LF) && complete s'
  end.

Definition partial (s : string) : bool := truthy s && no_lf s.

Fixpoint no_cr (s : string) : bool :=
  match s with
  | "" => true
  | String c s' => negb (Ascii.eqb c CR) && no_cr s'
  end.

(** The lines of a text: complete lines, the last one possibly partial. *)
Fixpoint text_lines (lines : list string) : Prop :=
  match lines with
  | [] => True
  | [l] => complete l = true \/ partial l = true
  | l :: rest => complete l = true /\ text_lines rest
  end.

(** Lines that can be written out and read back with the same boundaries
    between entries: a partial line that is not the last one is indented,
    so that what follows it continues the same entry. *)
Fixpoint mergeable (lines : list string) : Prop :=
  match lines with
  | [] => True
  | [l] => complete l = true \/ partial l = true
  | l :: rest =>
      (complete l = true \/ (partial l = true /\ startswith l " " = true))
      /\ mergeable rest
  end.

(** Lines in which the occurrences of every identifier line are adjacent:
    an identifier line repeats the latest one or is not among those [seen]
    so far, and an indented line has an entry to continue. *)
Fixpoint grouped (seen : list string) (cur : option string)
    (lines : list string) : Prop :=
  match lines with
  | [] => True
  | l :: rest =>
      if startswith l " " then cur <> None /\ grouped seen cur rest
      else (cur = Some l \/ ~ In l seen) /\ grouped (l :: seen) (Some l) rest
  end.

(** A mapping as the loop builds it: every block starts with its key and
    goes on with indented lines and repetitions of the key; no key is
    indented or empty. *)
Definition block_of_key (kv : string * list string) : Prop :=
  let (k, blk) := kv in
  startswith k " " = false /\ truthy k = true /\
  exists tl, blk = k :: tl /\
    Forall (fun l => l = k \/ startswith l " " = true) tl.

(** The invariant of the loop of [parse_requirements]. *)
Definition parse_inv (packages : Packages) (current_package : option string)
    : Prop :=
  NoDup (keys packages) /\ Forall block_of_key packages /\
  match current_package with
  | None => packages = []
  | Some cp => In cp (keys packages) /\ truthy cp = true
  end.

(** The surroundings after the resolver has run [cmds] one after the
    other, whatever their exit statuses. *)
Definition after_commands {Ext}
    (spawn : list string -> Ext * FS -> Z * (Ext * FS))
    (cmds : list (list string)) (s : Ext * FS) : Ext * FS :=
  fold_left (fun s cmd => snd (spawn cmd s)) cmds s.

(** The exit status of the [i]-th command of [cmds] when the ones before
    it have run. *)
Definition exit_status {Ext}
    (spawn : list string -> Ext * FS -> Z * (Ext * FS))
    (cmds : list (list string)) (i : nat) (s : Ext * FS) : Z :=
  fst (spawn (nth i cmds []) (after_commands spawn (firstn i cmds) s)).

(** ** Vocabulary of the further properties *)

(** The identifier lines among [lines]: those that do not begin with a
    space. *)
Definition identifier_lines (lines : list string) : list string :=
  filter (fun l => negb (startswith l " ")) lines.

(** The lines of [lines] that are not among [seen], each at its first
    occurrence. *)
Fixpoint first_occurrences (seen lines : list string) : list string :=
  match lines with
  | [] => []
  | l :: rest =>
      if existsb (String.eqb l) seen then first_occurrences seen rest
      else l :: first_occurrences (l :: seen) rest
  end.

(** An action that prints nothing: whether it returns or raises, the trace
    grows by events none of which is a print. *)
Definition quiet {Ext A} (m : IO Ext A) : Prop :=
  forall w w' r, m w = (w', r) ->
    exists events, trace w' = (trace w ++ events)%list /\
                   forall line, ~ In (EvPrint line) events.

(** Why reading and parsing [f] on [d] raises [e]: the file is missing,
    or its first content line begins with a space. *)
Definition raised_by (f : ReqFile) (d : FS) (e : exn) : Prop :=
  (e = FileNotFoundError f /\ read_file f d = None) \/
  (e = unexpected_indentation /\
   exists text, read_file f d = Some text /\ indented_start text).

(** The line that [main] prints. *)
Definition completion_message : string :=
  "Requirements files have been successfully processed.".

(** The world after the resolver has run all of [cmds]. *)
Definition spawned {Ext}
    (spawn : list string -> Ext * FS -> Z * (Ext * FS))
    (cmds : list (list string)) (w : World Ext) : World Ext :=
  mkWorld (snd (after_commands spawn cmds (outside w, disk w)))
    (fst (after_commands spawn cmds (outside w, disk w)))
    (trace w ++ map EvSpawn cmds)%list.

(** The world after [print line]. *)
Definition printed {Ext} (line : string) (w : World Ext) : World Ext :=
  mkWorld (disk w) (outside w) (trace w ++ [EvPrint line])%list.

(** ** Sample runs *)

Definition sample_root : Path := ["srv"; "cvat"].

Definition sample_world (b p d t a : string) : World unit :=
  mkWorld (mkFS (Some b) (Some p) (Some d) (Some t) (Some a)) tt [].

(** Files as the resolver writes them: a comment header, then pinned
    packages with indented annotations. *)
Definition minimal_world : World unit :=
  sample_world
    ("# compiled by uv" ++ nl ++ "foo==1.0" ++ nl)
    ("# compiled by uv" ++ nl ++ "foo==1.0" ++ nl ++ "bar==2.0" ++ nl)
    ("foo==1.0" ++ nl ++ "    # via django" ++ nl ++ "dev==3.0" ++ nl
     ++ "    # via cvat (pyproject.toml)" ++ nl)
    ("foo==1.0" ++ nl ++ "dev==3.0" ++ nl ++ "test==4.0" ++ nl)
    ("foo==1.0" ++ nl ++ "bar==2.0" ++ nl ++ "dev==3.0" ++ nl
     ++ "test==4.0" ++ nl).

(** The development file starts with an indented line. *)
Definition indented_world : World unit :=
  sample_world
    ("foo==1.0" ++ nl)
    ("foo==1.0" ++ nl ++ "bar==2.0" ++ nl)
    ("    --hash=sha256:abc" ++ nl ++ "dev==3.0" ++ nl)
    ("test==4.0" ++ nl)
    "".

(** The base file starts with a line indented by a tab. *)
Definition tab_world : World unit :=
  sample_world
    (String TAB "foo==1.0" ++ nl)
    ("bar==2.0" ++ nl)
    ("dev==3.0" ++ nl)
    ("test==4.0" ++ nl)
    "".

(** A file with a repeated identifier line, a comment and a blank line
    after the first entry, and no line feed at its end. *)
Definition repeated_text : string :=
  "# header" ++ nl ++ "a==1" ++ nl ++ "    --hash=x" ++ nl ++ "# note" ++ nl
  ++ nl ++ "b==2" ++ nl ++ "a==1" ++ nl ++ "    --hash=y".

(** The mapping the parser returns for [repeated_text]. *)
Definition repeated_mapping : Packages :=
  [ ("a==1" ++ nl,
     ["a==1" ++ nl; "    --hash=x" ++ nl; "a==1" ++ nl; "    --hash=y"]);
    ("# note" ++ nl, ["# note" ++ nl]);
    (nl, [nl]);
    ("b==2" ++ nl, ["b==2" ++ nl]) ].

(** The worlds that [deduplicate_requirements] leaves. *)
Definition minimal_done : World unit :=
  fst (deduplicate_requirements sample_root minimal_world).

Definition minimal_done_twice : World unit :=
  fst (deduplicate_requirements sample_root minimal_done).

Definition foo_line : string := "foo==1.0" ++ nl.
Definition foo_note : string := "    # via django" ++ nl.
Definition dev_line : string := "dev==3.0" ++ nl.
Definition dev_note : string := "    # via cvat (pyproject.toml)" ++ nl.

(** A resolver whose lock step succeeds and whose compile steps exit with
    status 2. *)
Definition sample_spawn (cmd : list string) (s : unit * FS)
    : Z * (unit * FS) :=
  match cmd with
  | [_; _] => (0%Z, s)
  | _ => (2%Z, s)
  end.

(** A file that ends in a line feed, with a repeated identifier line. *)
Definition complete_text : string :=
  "# header" ++ nl ++ "a==1" ++ nl ++ "    --hash=x" ++ nl ++ "b==2" ++ nl
  ++ "a==1" ++ nl ++ "    --hash=y" ++ nl.

(** The mapping the parser returns for [complete_text]. *)
Definition complete_mapping : Packages :=
  [ ("a==1" ++ nl,
     ["a==1" ++ nl; "    --hash=x" ++ nl; "a==1" ++ nl;
      "    --hash=y" ++ nl]);
    ("b==2" ++ nl, ["b==2" ++ nl]) ].

(** A file in which no identifier line is repeated. *)
Definition plain_text : string :=
  "# compiled by uv" ++ nl ++ nl ++ "foo==1.0" ++ nl ++ "    # via django"
  ++ nl ++ "dev==3.0" ++ nl ++ "    # via cvat".

(** No development file and no all file on disk. *)
Definition missing_world : World unit :=
  mkWorld
    (mkFS (Some ("foo==1.0" ++ nl))
       (Some ("foo==1.0" ++ nl ++ "bar==2.0" ++ nl)) None
       (Some ("test==4.0" ++ nl)) None)
    tt [].

(** Production and development both pin [shared], which base does not. *)
Definition shared_line : string := "shared==5.0" ++ nl.

Definition shared_world : World unit :=
  sample_world
    ("foo==1.0" ++ nl)
    ("foo==1.0" ++ nl ++ "shared==5.0" ++ nl)
    ("shared==5.0" ++ nl ++ "    # via dev" ++ nl)
    ("test==4.0" ++ nl)
    "".

Definition shared_done : World unit :=
  fst (deduplicate_requirements sample_root shared_world).

(** A resolver whose commands all succeed and change nothing. *)
Definition idle_spawn (cmd : list string) (s : unit * FS)
    : Z * (unit * FS) :=
  (0%Z, s).

(** The mapping the parser returns for [plain_text]. *)
Definition plain_mapping : Packages :=
  [ ("foo==1.0" ++ nl, ["foo==1.0" ++ nl; "    # via django" ++ nl]);
    ("dev==3.0" ++ nl, ["dev==3.0" ++ nl; "    # via cvat"]) ].

(** Files with carriage returns at their line ends. *)
Definition crlf_world : World unit :=
  sample_world
    ("foo==1.0" ++ String CR nl)
    ("foo==1.0" ++ String CR nl ++ "bar==2.0" ++ String CR nl)
    ("dev==3.0" ++ String CR "")
    ("test==4.0" ++ nl)
    (String CR "").

Definition crlf_done : World unit :=
  fst (deduplicate_requirements sample_root crlf_world).



(** The command that compiles [base.txt] under [sample_root]. *)
Definition compile_base : list string :=
  ["uv"; "pip"; "compile"; "pyproject.toml"; "-o";
   "/srv/cvat/cvat/requirements/base.txt"].

(** * Proofs *)

Unset Implicit Arguments.

Arguments Ascii.eqb : simpl never.
Arguments String.eqb : simpl never.
Arguments blank_or_comment : simpl never.

(** ** Strings *)

Lemma sapp_assoc (a b c : string) : (a ++ b) ++ c = a ++ (b ++ c).
Proof. induction a as [|x a IH]; simpl; [reflexivity | now rewrite IH]. Qed.

Lemma sapp_nil_r (a : string) : a ++ "" = a.
Proof. induction a as [|x a IH]; simpl; [reflexivity | now rewrite IH]. Qed.

Lemma join_app (a b : list string) : join (a ++ b) = join a ++ join b.
Proof.
  induction a as [|x a IH]; simpl; [reflexivity |].
  now rewrite IH, sapp_assoc.
Qed.

Lemma join_single (l : string) : join [l] = l.
Proof. simpl. apply sapp_nil_r. Qed.

Lemma startswith_space (s : string) :
  startswith s " " = true <-> exists s', s = String " " s'.
Proof.
  destruct s as [|c s]; simpl.
  - split; [intros H; discriminate H | intros [s' H]; discriminate H].
  - destruct (Ascii.eqb_spec " " c) as [<- | N]; simpl.
    + split; [eauto | intros _; now destruct s].
    + split; [intros H; discriminate H
             | intros [s' H]; inversion H; congruence].
Qed.

Lemma startswith_space_app (l m : string) :
  startswith l " " = true -> startswith (l ++ m) " " = true.
Proof.
  intros H. apply startswith_space in H as [s' ->].
  apply startswith_space. simpl. eauto.
Qed.

Lemma complete_truthy (l : string) : complete l = true -> truthy l = true.
Proof. now destruct l. Qed.

Lemma partial_truthy (l : string) : partial l = true -> truthy l = true.
Proof. unfold partial. now intros [H _]%andb_prop. Qed.

Lemma complete_not_partial (l : string) :
  complete l = true -> partial l = false.
Proof.
  unfold partial. induction l as [|c l IH]; [discriminate |].
  destruct l as [|c' l'].
  - simpl. intros H. now rewrite H.
  - intros H. change (negb (Ascii.eqb c LF) && complete (String c' l') = true)
      in H.
    apply andb_prop in H as [Hc Hl]. specialize (IH Hl).
    simpl in IH |- *. rewrite Hc. simpl. exact IH.
Qed.

(** ** Lines of a text *)

Lemma join_splitlines (s : string) : join (splitlines s) = s.
Proof.
  induction s as [|c s IH]; [reflexivity |].
  simpl. destruct (Ascii.eqb_spec c LF) as [-> | N].
  - simpl. now rewrite IH.
  - destruct (splitlines s) as [|l ls]; simpl in *; now rewrite <- IH.
Qed.

Lemma splitlines_complete (l s : string) :
  complete l = true -> splitlines (l ++ s) = l :: splitlines s.
Proof.
  induction l as [|c l IH]; [discriminate |].
  destruct l as [|c' l'].
  - simpl. intros H. apply Ascii.eqb_eq in H. subst c. reflexivity.
  - intros H. change (negb (Ascii.eqb c LF) && complete (String c' l') = true)
      in H.
    apply andb_prop in H as [Hc Hl]. specialize (IH Hl).
    change (String c (String c' l') ++ s) with (String c (String c' l' ++ s)).
    cbn [splitlines]. apply negb_true_iff in Hc. rewrite Hc, IH. reflexivity.
Qed.

Lemma splitlines_partial (l s : string) :
  partial l = true ->
  splitlines (l ++ s) =
  match splitlines s with
  | [] => [l]
  | m :: ms => (l ++ m) :: ms
  end.
Proof.
  unfold partial. intros [Ht Hn]%andb_prop.
  induction l as [|c l IH]; [discriminate |].
  simpl in Hn. apply andb_prop in Hn as [Hc Hn].
  apply negb_true_iff in Hc. simpl. rewrite Hc.
  destruct l as [|c' l'].
  - simpl. destruct (splitlines s); reflexivity.
  - rewrite (IH eq_refl Hn). destruct (splitlines s); reflexivity.
Qed.

Lemma text_lines_cons (l : string) (ls : list string) :
  complete l = true -> text_lines ls -> text_lines (l :: ls).
Proof. intros Hl Hls. destruct ls; simpl; auto. Qed.

Lemma text_lines_tail (l : string) (ls : list string) :
  text_lines (l :: ls) -> text_lines ls.
Proof. destruct ls; simpl; tauto. Qed.

Lemma text_lines_head (l : string) (ls : list string) :
  text_lines (l :: ls) -> complete l = true \/ (partial l = true /\ ls = []).
Proof. destruct ls; simpl; tauto. Qed.

Lemma text_lines_splitlines (s : string) : text_lines (splitlines s).
Proof.
  induction s as [|c s IH]; [exact I |].
  simpl. destruct (Ascii.eqb_spec c LF) as [-> | N].
  - apply text_lines_cons; [reflexivity | exact IH].
  - apply Ascii.eqb_neq in N.
    destruct (splitlines s) as [|l ls] eqn:E.
    + simpl. right. unfold partial. simpl. now rewrite N.
    + destruct (text_lines_head _ _ IH) as [Hc | [Hp ->]].
      * apply text_lines_cons; [| exact (text_lines_tail _ _ IH)].
        destruct l; [discriminate |].
        change (negb (Ascii.eqb c LF) && complete (String a l) = true).
        now rewrite N, Hc.
      * simpl. right. unfold partial in *. simpl. rewrite N. simpl.
        now apply andb_prop in Hp as [_ ->].
Qed.

Lemma text_lines_truthy (ls : list string) :
  text_lines ls -> Forall (fun l => truthy l = true) ls.
Proof.
  induction ls as [|l ls IH]; intros H; constructor.
  - destruct (text_lines_head _ _ H) as [Hc | [Hp _]];
      [now apply complete_truthy | now apply partial_truthy].
  - apply IH. exact (text_lines_tail _ _ H).
Qed.

Lemma file_lines_text_lines (text : string) : text_lines (file_lines text).
Proof. apply text_lines_splitlines. Qed.

Lemma file_lines_truthy (text : string) :
  Forall (fun l => truthy l = true) (file_lines text).
Proof. apply text_lines_truthy, file_lines_text_lines. Qed.

(** ** Carriage returns *)

Lemma no_cr_universal_newlines (s : string) :
  no_cr (universal_newlines s) = true.
Proof.
  assert (H : forall n s, String.length s <= n ->
                          no_cr (universal_newlines s) = true).
  { clear s. induction n as [|n IH]; intros s Hn.
    - destruct s; [reflexivity | simpl in Hn; lia].
    - destruct s as [|c s]; [reflexivity |]. simpl in Hn.
      simpl. destruct (Ascii.eqb_spec c CR) as [-> | N].
      + destruct s as [|c' s'].
        * reflexivity.
        * simpl in Hn. destruct (Ascii.eqb c' LF).
          -- change (no_cr (universal_newlines s') = true). apply IH. lia.
          -- change (no_cr (universal_newlines (String c' s')) = true).
             apply IH. simpl. lia.
      + apply Ascii.eqb_neq in N. simpl. rewrite N. simpl. apply IH. lia. }
  apply (H (String.length s)). lia.
Qed.

Lemma universal_newlines_no_cr (s : string) :
  no_cr s = true -> universal_newlines s = s.
Proof.
  induction s as [|c s IH]; [reflexivity |].
  simpl. intros [Hc Hs]%andb_prop. apply negb_true_iff in Hc.
  rewrite Hc. now rewrite IH.
Qed.

Lemma no_cr_app (a b : string) : no_cr (a ++ b) = no_cr a && no_cr b.
Proof.
  induction a as [|c a IH]; simpl; [reflexivity |].
  now rewrite IH, andb_assoc.
Qed.

Lemma no_cr_join (ls : list string) :
  Forall (fun l => no_cr l = true) ls -> no_cr (join ls) = true.
Proof.
  induction 1 as [|l ls Hl _ IH]; simpl; [reflexivity |].
  now rewrite no_cr_app, Hl, IH.
Qed.

Lemma no_cr_splitlines (s : string) :
  no_cr s = true -> Forall (fun l => no_cr l = true) (splitlines s).
Proof.
  induction s as [|c s IH]; [constructor |].
  simpl. intros [Hc Hs]%andb_prop. specialize (IH Hs).
  destruct (Ascii.eqb c LF).
  - constructor; [reflexivity | exact IH].
  - destruct (splitlines s) as [|l ls].
    + constructor; [simpl; now rewrite Hc | constructor].
    + inversion IH; subst. constructor; [simpl; now rewrite Hc | assumption].
Qed.

Lemma no_cr_file_lines (text : string) :
  Forall (fun l => no_cr l = true) (file_lines text).
Proof. apply no_cr_splitlines, no_cr_universal_newlines. Qed.

(** ** The mapping *)

Local Open Scope list_scope.

Lemma contains_In (k : string) (d : Packages) :
  contains k d = true <-> In k (keys d).
Proof.
  unfold contains. rewrite existsb_exists. split.
  - intros [x [Hx E]]. apply String.eqb_eq in E. now subst.
  - intros H. exists k. split; [exact H | apply String.eqb_refl].
Qed.

Lemma contains_false (k : string) (d : Packages) :
  contains k d = false <-> ~ In k (keys d).
Proof.
  rewrite <- contains_In. destruct (contains k d); split; congruence.
Qed.

Lemma lookup_In (k : string) (b : list string) (d : Packages) :
  lookup k d = Some b -> In (k, b) d.
Proof.
  induction d as [|[k' b'] d IH]; simpl; [discriminate |].
  destruct (String.eqb_spec k k') as [-> | N].
  - intros [= ->]. now left.
  - intros H. right. now apply IH.
Qed.

Lemma lookup_None (k : string) (d : Packages) :
  lookup k d = None <-> ~ In k (keys d).
Proof.
  induction d as [|[k' b'] d IH]; simpl.
  - tauto.
  - destruct (String.eqb_spec k k') as [-> | N].
    + split; [discriminate | intros H; exfalso; apply H; now left].
    + rewrite IH. split; [intros H [E | I]; congruence | tauto].
Qed.

Lemma In_keys_lookup (k : string) (d : Packages) :
  In k (keys d) -> exists b, lookup k d = Some b.
Proof.
  intros H. destruct (lookup k d) as [b|] eqn:E; [eauto |].
  now apply lookup_None in E.
Qed.

Lemma In_keys (k : string) (b : list string) (d : Packages) :
  In (k, b) d -> In k (keys d).
Proof. intros H. unfold keys. now apply (in_map fst) in H. Qed.

Lemma NoDup_lookup (k : string) (b : list string) (d : Packages) :
  NoDup (keys d) -> In (k, b) d -> lookup k d = Some b.
Proof.
  induction d as [|[k' b'] d IH]; simpl; [tauto |].
  intros ND [E | I].
  - inversion E; subst. now rewrite String.eqb_refl.
  - inversion ND as [|? ? Hk ND']; subst.
    destruct (String.eqb_spec k k') as [-> | N].
    + exfalso. apply Hk. exact (In_keys _ _ _ I).
    + now apply IH.
Qed.

Lemma dict_append_new (k l : string) (d : Packages) :
  ~ In k (keys d) -> dict_append k l d = (d ++ [(k, [l])])%list.
Proof.
  induction d as [|[k' b'] d IH]; simpl; [reflexivity |].
  intros H. destruct (String.eqb_spec k k') as [-> | N].
  - exfalso. apply H. now left.
  - f_equal. apply IH. tauto.
Qed.

Lemma dict_append_split (k l : string) (d : Packages) :
  In k (keys d) ->
  exists d1 b d2, d = (d1 ++ (k, b) :: d2)%list /\ ~ In k (keys d1) /\
    dict_append k l d = (d1 ++ (k, (b ++ [l])%list) :: d2)%list.
Proof.
  induction d as [|[k' b'] d IH]; simpl; [tauto |].
  intros H. destruct (String.eqb_spec k k') as [-> | N].
  - exists [], b', d. simpl. tauto.
  - destruct H as [E | I]; [congruence |].
    destruct (IH I) as (d1 & b & d2 & -> & Hn & ->).
    exists ((k', b') :: d1), b, d2. simpl. repeat split.
    intros [E | I']; [congruence | tauto].
Qed.

Lemma dict_append_last (k l : string) (b : list string) (d : Packages) :
  ~ In k (keys d) ->
  dict_append k l (d ++ [(k, b)]) = (d ++ [(k, (b ++ [l])%list)])%list.
Proof.
  induction d as [|[k' b'] d IH]; simpl.
  - now rewrite String.eqb_refl.
  - intros H. destruct (String.eqb_spec k k') as [-> | N].
    + exfalso. apply H. now left.
    + f_equal. apply IH. tauto.
Qed.

Lemma keys_app (d1 d2 : Packages) :
  keys (d1 ++ d2) = (keys d1 ++ keys d2)%list.
Proof. apply map_app. Qed.

Lemma keys_dict_append_old (k l : string) (d : Packages) :
  In k (keys d) -> keys (dict_append k l d) = keys d.
Proof.
  intros H. destruct (dict_append_split k l d H) as (d1 & b & d2 & -> & _ & ->).
  now rewrite !keys_app.
Qed.

Lemma keys_dict_append_new (k l : string) (d : Packages) :
  ~ In k (keys d) -> keys (dict_append k l d) = (keys d ++ [k])%list.
Proof. intros H. rewrite dict_append_new by exact H. apply keys_app. Qed.

Lemma In_keys_dict_append (k l k' : string) (d : Packages) :
  In k' (keys (dict_append k l d)) <-> k' = k \/ In k' (keys d).
Proof.
  destruct (in_dec string_dec k (keys d)) as [I | N].
  - rewrite keys_dict_append_old by exact I.
    split; [tauto | intros [-> | H]; assumption].
  - rewrite keys_dict_append_new by exact N. rewrite in_app_iff. simpl.
    split; [intros [H | [H | []]]; auto | intros [-> | H]; auto].
Qed.

Lemma NoDup_keys_dict_append (k l : string) (d : Packages) :
  NoDup (keys d) -> NoDup (keys (dict_append k l d)).
Proof.
  intros ND. destruct (in_dec string_dec k (keys d)) as [I | N].
  - now rewrite keys_dict_append_old.
  - rewrite keys_dict_append_new by exact N.
    apply NoDup_app; [exact ND | repeat constructor; simpl; tauto |].
    intros x Hx [<- | []]. contradiction.
Qed.

Lemma lookup_dict_append_same (k l : string) (d : Packages) :
  lookup k (dict_append k l d) =
  Some (match lookup k d with Some b => b ++ [l] | None => [l] end)%list.
Proof.
  induction d as [|[k' b'] d IH]; simpl.
  - now rewrite String.eqb_refl.
  - destruct (String.eqb_spec k k') as [-> | N]; simpl.
    + now rewrite String.eqb_refl.
    + destruct (String.eqb_spec k k'); [congruence | exact IH].
Qed.

Lemma lookup_dict_append_other (k l k' : string) (d : Packages) :
  k' <> k -> lookup k' (dict_append k l d) = lookup k' d.
Proof.
  intros N. induction d as [|[k2 b2] d IH]; simpl.
  - destruct (String.eqb_spec k' k); [congruence | reflexivity].
  - destruct (String.eqb_spec k k2) as [-> | N2]; simpl.
    + destruct (String.eqb_spec k' k2); [congruence | reflexivity].
    + destruct (String.eqb_spec k' k2); [reflexivity | exact IH].
Qed.

Lemma entry_lines_app (d1 d2 : Packages) :
  entry_lines (d1 ++ d2) = (entry_lines d1 ++ entry_lines d2)%list.
Proof. unfold entry_lines, values. now rewrite map_app, concat_app. Qed.

Lemma entry_lines_cons (k : string) (b : list string) (d : Packages) :
  entry_lines ((k, b) :: d) = (b ++ entry_lines d)%list.
Proof. reflexivity. Qed.

(** Appending a line puts it somewhere in the lines of the mapping, and at
    their end when the key is new. *)
Lemma entry_lines_dict_append (k l : string) (d : Packages) :
  exists A B, entry_lines d = (A ++ B)%list /\
    entry_lines (dict_append k l d) = (A ++ l :: B)%list /\
    (~ In k (keys d) -> B = []).
Proof.
  destruct (in_dec string_dec k (keys d)) as [I | N].
  - destruct (dict_append_split k l d I) as (d1 & b & d2 & -> & _ & ->).
    exists (entry_lines d1 ++ b)%list, (entry_lines d2).
    rewrite !entry_lines_app, !entry_lines_cons.
    repeat split.
    + now rewrite <- app_assoc.
    + now rewrite <- !app_assoc.
    + intros H. exfalso. apply H. rewrite keys_app, in_app_iff. simpl. auto.
  - exists (entry_lines d), []. rewrite dict_append_new by exact N.
    rewrite entry_lines_app, app_nil_r. simpl. auto.
Qed.

Lemma In_entry_lines_dict_append (k l x : string) (d : Packages) :
  In x (entry_lines (dict_append k l d)) <-> x = l \/ In x (entry_lines d).
Proof.
  destruct (entry_lines_dict_append k l d) as (A & B & -> & -> & _).
  rewrite !in_app_iff. simpl. split; intros H; intuition congruence.
Qed.

Lemma In_block_entry_lines (k x : string) (b : list string) (d : Packages) :
  In (k, b) d -> In x b -> In x (entry_lines d).
Proof.
  intros H Hx. apply in_split in H as (d1 & d2 & ->).
  rewrite entry_lines_app, entry_lines_cons, !in_app_iff. auto.
Qed.

Lemma In_without (k : string) (b : list string) (excl : list Packages)
    (d : Packages) :
  In (k, b) (without excl d) <->
  In (k, b) d /\ forall e, In e excl -> ~ In k (keys e).
Proof.
  unfold without. rewrite filter_In, forallb_forall. simpl.
  split; intros [H1 H2]; split; auto; intros e He.
  - apply contains_false. specialize (H2 e He).
    now apply negb_true_iff in H2.
  - apply negb_true_iff, contains_false. auto.
Qed.

Lemma In_keys_without (k : string) (excl : list Packages) (d : Packages) :
  In k (keys (without excl d)) <->
  In k (keys d) /\ forall e, In e excl -> ~ In k (keys e).
Proof.
  unfold keys at 1. rewrite in_map_iff. split.
  - intros [[k' b] [E H]]. simpl in E. subst k'. apply In_without in H.
    split; [exact (In_keys _ _ _ (proj1 H)) | exact (proj2 H)].
  - intros [Hk He]. apply In_keys_lookup in Hk as [b Hb].
    exists (k, b). split; [reflexivity |]. apply In_without.
    split; [now apply lookup_In | exact He].
Qed.

(** ** The loop of the parser *)

Lemma parse_loop_app (a b : list string) (pk : Packages)
    (cur : option string) :
  parse_loop (a ++ b) pk cur =
  match parse_loop a pk cur with
  | inl e => inl e
  | inr (pk', cur') => parse_loop b pk' cur'
  end.
Proof.
  revert pk cur. induction a as [|l a IH]; intros pk cur; simpl.
  - reflexivity.
  - destruct (negb (truthy_opt cur) && blank_or_comment l); [apply IH |].
    destruct (startswith l " "); [| apply IH].
    destruct cur as [cp|]; [| reflexivity].
    destruct (truthy cp); [apply IH | reflexivity].
Qed.

Lemma parse_loop_indent (line cp : string) (rest : list string)
    (pk : Packages) :
  truthy cp = true -> startswith line " " = true ->
  parse_loop (line :: rest) pk (Some cp) =
  parse_loop rest (dict_append cp line pk) (Some cp).
Proof. intros Ht Hs. simpl. now rewrite Ht, Hs. Qed.

Lemma parse_loop_key (line : string) (rest : list string) (pk : Packages)
    (cur : option string) :
  truthy_opt cur = true \/ blank_or_comment line = false ->
  startswith line " " = false ->
  parse_loop (line :: rest) pk cur =
  parse_loop rest (dict_append line line pk) (Some line).
Proof.
  intros H Hs. simpl. rewrite Hs.
  destruct H as [-> | ->]; [reflexivity | now rewrite andb_false_r].
Qed.

Lemma parse_loop_skip (line : string) (rest : list string) (pk : Packages) :
  blank_or_comment line = true ->
  parse_loop (line :: rest) pk None = parse_loop rest pk None.
Proof. intros H. simpl. now rewrite H. Qed.

Lemma parse_loop_content_lines (lines : list string) (pk : Packages) :
  parse_loop lines pk None = parse_loop (content_lines lines) pk None.
Proof.
  induction lines as [|l lines IH]; [reflexivity |].
  cbn [content_lines]. destruct (blank_or_comment l) eqn:E; [| reflexivity].
  now rewrite parse_loop_skip.
Qed.

Lemma content_lines_head (lines : list string) (l : string)
    (rest : list string) :
  content_lines lines = l :: rest -> blank_or_comment l = false.
Proof.
  induction lines as [|x lines IH]; [discriminate |].
  cbn [content_lines]. destruct (blank_or_comment x) eqn:E; [exact IH |].
  intros [= <- _]. exact E.
Qed.

Lemma content_lines_first (lines : list string) :
  first_content_line lines = hd_error (content_lines lines).
Proof.
  unfold first_content_line.
  induction lines as [|x lines IH]; [reflexivity |].
  cbn [content_lines find]. now destruct (blank_or_comment x).
Qed.

Lemma content_lines_suffix (lines : list string) :
  exists skipped, lines = skipped ++ content_lines lines /\
    Forall (fun l => blank_or_comment l = true) skipped.
Proof.
  induction lines as [|x lines (sk & E & F)].
  - exists []. split; [reflexivity | constructor].
  - cbn [content_lines]. destruct (blank_or_comment x) eqn:B.
    + exists (x :: sk). split; [simpl; now f_equal | now constructor].
    + exists []. split; [reflexivity | constructor].
Qed.

(** A first content line that begins with a space stops the parser. *)
Lemma parse_loop_indented_start (lines : list string) (l : string) :
  first_content_line lines = Some l -> startswith l " " = true ->
  parse_loop lines [] None = inl unexpected_indentation.
Proof.
  intros Hf Hs. rewrite parse_loop_content_lines.
  rewrite content_lines_first in Hf.
  destruct (content_lines lines) as [|x rest] eqn:E; [discriminate |].
  injection Hf as ->. apply content_lines_head in E.
  simpl. now rewrite E, Hs.
Qed.

(** Once an entry is open the loop runs to the end of the lines. *)
Lemma parse_loop_total (lines : list string) (pk : Packages) (cp : string) :
  truthy cp = true -> Forall (fun l => truthy l = true) lines ->
  exists pk' cp', parse_loop lines pk (Some cp) = inr (pk', Some cp') /\
    truthy cp' = true.
Proof.
  intros Ht F. revert pk cp Ht.
  induction F as [|l lines Hl _ IH]; intros pk cp Ht.
  - exists pk, cp. now split.
  - destruct (startswith l " ") eqn:E.
    + rewrite parse_loop_indent by assumption. now apply IH.
    + rewrite parse_loop_key; [now apply IH | left; exact Ht | exact E].
Qed.

Lemma block_of_key_dict_append (k l : string) (d : Packages) :
  Forall block_of_key d ->
  startswith k " " = false -> truthy k = true ->
  l = k \/ (startswith l " " = true /\ In k (keys d)) ->
  Forall block_of_key (dict_append k l d).
Proof.
  intros F Hk Ht Hl.
  destruct (in_dec string_dec k (keys d)) as [I | N].
  - destruct (dict_append_split k l d I) as (d1 & b & d2 & -> & _ & ->).
    apply Forall_app in F as [F1 F2]. inversion F2 as [|? ? Hb F2']; subst.
    apply Forall_app. split; [exact F1 |]. constructor; [| exact F2'].
    destruct Hb as (H1 & H2 & tl & -> & Htl).
    repeat split; try assumption. exists (tl ++ [l]). split; [reflexivity |].
    apply Forall_app. split; [exact Htl |]. constructor; [| constructor].
    tauto.
  - rewrite dict_append_new by exact N. apply Forall_app. split; [exact F |].
    constructor; [| constructor].
    destruct Hl as [-> | [_ I]]; [| contradiction].
    repeat split; try assumption. exists []. split; [reflexivity | constructor].
Qed.

Lemma parse_inv_init : parse_inv [] None.
Proof. repeat split; constructor. Qed.

Lemma parse_inv_indent (pk : Packages) (cp line : string) :
  parse_inv pk (Some cp) -> startswith line " " = true ->
  parse_inv (dict_append cp line pk) (Some cp).
Proof.
  intros (ND & F & I & Ht) Hs. repeat split.
  - now apply NoDup_keys_dict_append.
  - assert (Hb : block_of_key (cp, block_lines cp pk)).
    { unfold block_lines. apply In_keys_lookup in I as [b Hb]. rewrite Hb.
      apply lookup_In in Hb. rewrite Forall_forall in F. now apply F. }
    destruct Hb as (H1 & _). apply block_of_key_dict_append; auto.
  - apply In_keys_dict_append. now left.
  - exact Ht.
Qed.

Lemma parse_inv_key (pk : Packages) (cur : option string) (line : string) :
  parse_inv pk cur -> startswith line " " = false -> truthy line = true ->
  parse_inv (dict_append line line pk) (Some line).
Proof.
  intros (ND & F & _) Hs Ht. repeat split.
  - now apply NoDup_keys_dict_append.
  - apply block_of_key_dict_append; auto.
  - apply In_keys_dict_append. now left.
  - exact Ht.
Qed.

Lemma truthy_opt_inv (pk : Packages) (cur : option string) :
  parse_inv pk cur -> truthy_opt cur = false -> cur = None.
Proof.
  destruct cur as [cp|]; [| reflexivity].
  intros (_ & _ & _ & Ht). simpl. congruence.
Qed.

Lemma parse_loop_inv (lines : list string) (pk : Packages)
    (cur : option string) (pk' : Packages) (cur' : option string) :
  Forall (fun l => truthy l = true) lines -> parse_inv pk cur ->
  parse_loop lines pk cur = inr (pk', cur') -> parse_inv pk' cur'.
Proof.
  intros F. revert pk cur.
  induction F as [|l lines Hl _ IH]; intros pk cur Inv; simpl.
  - now intros [= <- <-].
  - destruct (negb (truthy_opt cur) && blank_or_comment l); [now apply IH |].
    destruct (startswith l " ") eqn:E.
    + destruct cur as [cp|]; [| discriminate].
      destruct (truthy cp); [| discriminate].
      apply IH. now apply parse_inv_indent.
    + apply IH. now apply parse_inv_key with (cur := cur).
Qed.

Lemma parse_text_inv (text : string) (pk : Packages) :
  parse_text text = inr pk -> exists cur, 
    parse_loop (file_lines text) [] None = inr (pk, cur) /\ parse_inv pk cur.
Proof.
  unfold parse_text.
  destruct (parse_loop (file_lines text) [] None) as [e | [pk' cur]] eqn:E;
    [discriminate |].
  intros [= ->]. exists cur. split; [reflexivity |].
  exact (parse_loop_inv _ _ _ _ _ (file_lines_truthy text) parse_inv_init E).
Qed.

Lemma parse_loop_extends (lines : list string) (pk pk' : Packages)
    (cur cur' : option string) (k : string) (b : list string) :
  parse_loop lines pk cur = inr (pk', cur') ->
  lookup k pk = Some b -> exists b', lookup k pk' = Some (b ++ b').
Proof.
  revert pk cur b. induction lines as [|l lines IH]; intros pk cur b; simpl.
  - intros [= <- <-] H. exists []. now rewrite app_nil_r.
  - assert (St : forall k0 cur0,
              parse_loop lines (dict_append k0 l pk) cur0 = inr (pk', cur') ->
              lookup k pk = Some b ->
              exists b', lookup k pk' = Some (b ++ b')).
    { intros k0 cur0 H Hb. destruct (String.eqb_spec k k0) as [-> | N].
      - destruct (IH _ _ (b ++ [l]) H) as [b' Hb'].
        + now rewrite lookup_dict_append_same, Hb.
        + exists (l :: b'). now rewrite Hb', <- app_assoc.
      - apply (IH _ _ b H). now rewrite lookup_dict_append_other. }
    destruct (negb (truthy_opt cur) && blank_or_comment l); [apply IH |].
    destruct (startswith l " "); [| apply St].
    destruct cur as [cp|]; [| discriminate].
    destruct (truthy cp); [apply St | discriminate].
Qed.

(** ** Writing the lines of a mapping and reading them back *)

Lemma grouped_weaken (seen seen' : list string) (cur : option string)
    (M : list string) :
  incl seen' seen -> grouped seen cur M -> grouped seen' cur M.
Proof.
  revert seen seen' cur. induction M as [|l M IH]; intros seen seen' cur Hi;
    [trivial |].
  cbn [grouped]. destruct (startswith l " ").
  - intros [Hc H]. split; [exact Hc | now apply (IH seen)].
  - intros [Hc H]. split.
    + destruct Hc as [Hc | Hc]; [now left | right; auto].
    + apply (IH (l :: seen)); [| exact H].
      intros a [<- | Ha]; [now left | right; auto].
Qed.

(** After an identifier line [m] the rest of the lines is still grouped
    when [m] is taken away: what follows [m] may belong to the entry
    before it. *)
Lemma grouped_rewind (seen : list string) (cur : option string) (m : string)
    (M : list string) :
  grouped (m :: seen) (Some m) M ->
  cur = Some m \/ ~ In m seen -> cur <> None ->
  grouped seen cur M.
Proof.
  intros H Hm Hc. induction M as [|l M IH]; [trivial |].
  cbn [grouped] in *. destruct (startswith l " ").
  - destruct H as [_ H]. split; [exact Hc | now apply IH].
  - destruct H as [Hl H]. split.
    + destruct (string_dec l m) as [-> | N]; [exact Hm |].
      right. destruct Hl as [Hl | Hl]; [congruence |].
      intros HI. apply Hl. now right.
    + apply (grouped_weaken (l :: m :: seen)); [| exact H].
      intros a [<- | Ha]; [now left | right; now right].
Qed.

Lemma grouped_drop (seen : list string) (cur : option string) (m : string)
    (M : list string) :
  grouped seen cur (m :: M) -> cur <> None -> grouped seen cur M.
Proof.
  cbn [grouped]. destruct (startswith m " ").
  - now intros [_ H] _.
  - intros [Hm H] Hc. now apply (grouped_rewind seen cur m).
Qed.

Lemma join_cons (l : string) (ls : list string) :
  join (l :: ls) = (l ++ join ls)%string.
Proof. reflexivity. Qed.

Lemma mergeable_head (l : string) (ls : list string) :
  mergeable (l :: ls) ->
  complete l = true \/
  (partial l = true /\ (ls = [] \/ startswith l " " = true)).
Proof. destruct ls; simpl; tauto. Qed.

Lemma mergeable_tail (l : string) (ls : list string) :
  mergeable (l :: ls) -> mergeable ls.
Proof. destruct ls; simpl; tauto. Qed.

(** Written out and split into lines again, grouped lines stay grouped. *)
Lemma grouped_resplit (F : list string) (seen : list string)
    (cur : option string) :
  mergeable F -> grouped seen cur F ->
  grouped seen cur (splitlines (join F)).
Proof.
  revert seen cur. induction F as [|l F IH]; intros seen cur HM HG;
    [exact I |].
  pose proof (mergeable_tail _ _ HM) as HM'.
  rewrite join_cons.
  destruct (mergeable_head _ _ HM) as [Hc | [Hp Hl]].
  - rewrite splitlines_complete by exact Hc.
    cbn [grouped] in *. destruct (startswith l " ").
    + split; [apply HG | apply IH; [exact HM' | apply HG]].
    + split; [apply HG | apply IH; [exact HM' | apply HG]].
  - rewrite splitlines_partial by exact Hp.
    destruct Hl as [-> | Hs].
    + simpl. exact HG.
    + cbn [grouped] in HG. rewrite Hs in HG. destruct HG as [Hc HG].
      specialize (IH seen cur HM' HG).
      destruct (splitlines (join F)) as [|m ms].
      * cbn [grouped]. rewrite Hs. now split.
      * cbn [grouped]. rewrite (startswith_space_app l m Hs).
        split; [exact Hc | now apply (grouped_drop seen cur m)].
Qed.

(** From a state whose last entry is the current one, grouped lines are
    taken into the mapping in the order they come. *)
Lemma parse_grouped (M : list string) (pk0 : Packages) (cp : string)
    (blk : list string) :
  ~ In cp (keys pk0) -> truthy cp = true ->
  Forall (fun l => truthy l = true) M ->
  grouped (keys (pk0 ++ [(cp, blk)])) (Some cp) M ->
  exists pk' cur',
    parse_loop M (pk0 ++ [(cp, blk)]) (Some cp) = inr (pk', cur') /\
    entry_lines pk' = entry_lines (pk0 ++ [(cp, blk)]) ++ M.
Proof.
  intros Hn Ht F. revert pk0 cp blk Hn Ht.
  induction F as [|l M Hl _ IH]; intros pk0 cp blk Hn Ht HG.
  - exists (pk0 ++ [(cp, blk)]), (Some cp). now rewrite app_nil_r.
  - cbn [grouped] in HG. destruct (startswith l " ") eqn:E.
    + destruct HG as [_ HG].
      rewrite parse_loop_indent, dict_append_last by assumption.
      destruct (IH pk0 cp (blk ++ [l]) Hn Ht) as (pk' & cur' & H1 & H2).
      { now rewrite keys_app in *. }
      exists pk', cur'. split; [exact H1 |]. rewrite H2.
      rewrite !entry_lines_app, !entry_lines_cons. simpl.
      now rewrite !app_nil_r, <- !app_assoc.
    + destruct HG as [Hk HG].
      rewrite parse_loop_key; [| now left | exact E].
      destruct (string_dec l cp) as [-> | N].
      * rewrite dict_append_last by assumption.
        destruct (IH pk0 cp (blk ++ [cp]) Hn Ht) as (pk' & cur' & H1 & H2).
        { apply (grouped_weaken (cp :: keys (pk0 ++ [(cp, blk)])));
            [| exact HG].
          rewrite !keys_app. intros a Ha. now right. }
        exists pk', cur'. split; [exact H1 |]. rewrite H2.
        rewrite !entry_lines_app, !entry_lines_cons. simpl.
        now rewrite !app_nil_r, <- !app_assoc.
      * destruct Hk as [Hk | Hk]; [congruence |].
        rewrite dict_append_new by exact Hk.
        destruct (IH (pk0 ++ [(cp, blk)]) l [l] Hk Hl)
          as (pk' & cur' & H1 & H2).
        { apply (grouped_weaken (l :: keys (pk0 ++ [(cp, blk)])));
            [| exact HG].
          rewrite (keys_app (pk0 ++ [(cp, blk)])). simpl.
          intros a Ha. apply in_app_iff in Ha as [Ha | [<- | []]];
            [now right | now left]. }
        exists pk', cur'. split; [exact H1 |]. rewrite H2.
        rewrite (entry_lines_app (pk0 ++ [(cp, blk)])), entry_lines_cons.
        simpl. now rewrite <- !app_assoc.
Qed.

Lemma grouped_block_tail (k : string) (tl M : list string)
    (seen : list string) :
  Forall (fun l => l = k \/ startswith l " " = true) tl ->
  grouped (k :: seen) (Some k) M ->
  grouped (k :: seen) (Some k) (tl ++ M).
Proof.
  intros F HM. induction F as [|l tl Hl _ IH]; [exact HM |].
  cbn [app grouped]. destruct (startswith l " ") eqn:E.
  - split; [discriminate | exact IH].
  - destruct Hl as [-> | Hl]; [| congruence].
    split; [now left |].
    apply (grouped_weaken (k :: seen)); [| exact IH].
    intros a [<- | Ha]; [now left | exact Ha].
Qed.

(** The lines of a mapping built by the parser are grouped. *)
Lemma grouped_entry_lines (d : Packages) (seen : list string)
    (cur : option string) :
  NoDup (keys d) -> Forall block_of_key d ->
  (forall k, In k (keys d) -> ~ In k seen) ->
  grouped seen cur (entry_lines d).
Proof.
  intros ND F. revert seen cur.
  induction F as [|[k b] d Hb _ IH]; intros seen cur Hs; [exact I |].
  inversion ND as [|? ? Hk ND']; subst.
  destruct Hb as (Hks & _ & tl & -> & Htl).
  rewrite entry_lines_cons. cbn [app grouped]. rewrite Hks.
  split; [right; apply Hs; now left |].
  apply grouped_block_tail; [exact Htl |].
  apply IH; [exact ND' |].
  intros k' Hk' [<- | HI]; [contradiction |].
  apply (Hs k'); [now right | exact HI].
Qed.

Lemma complete_mergeable (F : list string) :
  Forall (fun l => complete l = true) F -> mergeable F.
Proof.
  induction 1 as [|l F Hl _ IH]; [exact I |].
  destruct F; simpl; auto.
Qed.

Lemma mergeable_insert (A B : list string) (x : string) :
  Forall (fun l => complete l = true) A ->
  Forall (fun l => complete l = true) B ->
  complete x = true \/ partial x = true ->
  (B <> [] -> complete x = true \/ startswith x " " = true) ->
  mergeable (A ++ x :: B).
Proof.
  intros HA HB Hx HxB. induction HA as [|a A Ha _ IH].
  - simpl. destruct B as [|b B]; [exact Hx |].
    split; [| now apply complete_mergeable].
    destruct HxB as [Hc | Hs]; [discriminate | now left |].
    destruct Hx as [Hc | Hp]; [now left | right; now split].
  - change ((a :: A) ++ x :: B) with (a :: (A ++ x :: B)).
    destruct (A ++ x :: B) eqn:E; [now destruct A |].
    split; [now left | exact IH].
Qed.

Lemma parse_loop_Forall (P : string -> Prop) (lines : list string)
    (pk pk' : Packages) (cur cur' : option string) :
  Forall P lines -> Forall P (entry_lines pk) ->
  parse_loop lines pk cur = inr (pk', cur') -> Forall P (entry_lines pk').
Proof.
  intros F. revert pk cur. induction F as [|l lines Hl _ IH];
    intros pk cur Hpk; simpl.
  - now intros [= <- _].
  - assert (St : forall k, Forall P (entry_lines (dict_append k l pk))).
    { intros k. rewrite Forall_forall in *. intros x Hx.
      apply In_entry_lines_dict_append in Hx as [-> | Hx]; auto. }
    destruct (negb (truthy_opt cur) && blank_or_comment l); [now apply IH |].
    destruct (startswith l " "); [| apply IH, St].
    destruct cur as [cp|]; [| discriminate].
    destruct (truthy cp); [apply IH, St | discriminate].
Qed.

Lemma text_lines_split (L : list string) :
  text_lines L ->
  L = [] \/
  exists L0 x, L = L0 ++ [x] /\ Forall (fun l => complete l = true) L0 /\
    (complete x = true \/ partial x = true).
Proof.
  induction L as [|l L IH]; [now left |].
  intros H. right. destruct L as [|l' L'].
  - exists [], l. repeat split; [constructor | exact H].
  - destruct H as [Hl H]. destruct (IH H) as [E | (L0 & x & E & F & Hx)];
      [discriminate |].
    exists (l :: L0), x. rewrite E. repeat split; [now constructor | exact Hx].
Qed.

Lemma key_in_entry_lines (d : Packages) (k : string) :
  Forall block_of_key d -> In k (keys d) -> In k (entry_lines d).
Proof.
  intros F H. apply In_keys_lookup in H as [b Hb]. apply lookup_In in Hb.
  rewrite Forall_forall in F. destruct (F _ Hb) as (_ & _ & tl & -> & _).
  apply (In_block_entry_lines _ _ _ _ Hb). now left.
Qed.

(** The lines of the mapping parsed from a file can be written out and
    read back: only the last line of the file can be partial, and it is
    either the last line written or an indented one. *)
Lemma mergeable_parsed (text : string) (pk : Packages)
    (cur : option string) :
  parse_loop (file_lines text) [] None = inr (pk, cur) ->
  mergeable (entry_lines pk).
Proof.
  intros H.
  destruct (text_lines_split _ (file_lines_text_lines text))
    as [E | (L0 & x & E & F0 & Hx)].
  - rewrite E in H. simpl in H. injection H as <- _. exact I.
  - pose proof (file_lines_truthy text) as Ft. rewrite E in H, Ft.
    rewrite parse_loop_app in H.
    destruct (parse_loop L0 [] None) as [e | [pk0 cur0]] eqn:H0;
      [discriminate |].
    assert (C0 : Forall (fun l => complete l = true) (entry_lines pk0)).
    { apply (parse_loop_Forall _ L0 [] pk0 None cur0 F0); [constructor |].
      exact H0. }
    assert (Inv0 : parse_inv pk0 cur0).
    { apply (parse_loop_inv L0 [] None); [| apply parse_inv_init | exact H0].
      now apply Forall_app in Ft. }
    destruct Hx as [Hc | Hp].
    + apply complete_mergeable.
      apply (parse_loop_Forall _ [x] pk0 pk cur0 cur); auto.
    + assert (St : forall k, (k = x \/ startswith x " " = true) ->
                mergeable (entry_lines (dict_append k x pk0))).
      { intros k Hk.
        destruct (entry_lines_dict_append k x pk0) as (A & B & EA & -> & HB).
        rewrite EA in C0. apply Forall_app in C0 as [CA CB].
        apply mergeable_insert; auto.
        intros HBn. destruct Hk as [-> | Hs]; [| now right].
        exfalso. apply HBn, HB. intros HI.
        apply key_in_entry_lines in HI; [| apply Inv0].
        rewrite EA in HI. apply in_app_iff in HI.
        assert (Hcx : complete x = true).
        { rewrite Forall_forall in CA, CB. destruct HI; auto. }
        rewrite (complete_not_partial _ Hcx) in Hp. discriminate Hp. }
      simpl in H.
      destruct (negb (truthy_opt cur0) && blank_or_comment x).
      * injection H as <- _. now apply complete_mergeable.
      * destruct (startswith x " ") eqn:Es.
        -- destruct cur0 as [cp|]; [| discriminate].
           destruct (truthy cp); [| discriminate].
           injection H as <- _. apply St. now right.
        -- injection H as <- _. apply St. now left.
Qed.

Lemma parse_loop_head (lines : list string) (k0 : string)
    (b0 : list string) (d pk : Packages) (cur cur' : option string) :
  parse_loop lines ((k0, b0) :: d) cur = inr (pk, cur') ->
  exists b d', pk = (k0, b) :: d'.
Proof.
  revert b0 d cur. induction lines as [|l lines IH]; intros b0 d cur; simpl.
  - intros [= <- _]. eauto.
  - assert (St : forall k c,
              parse_loop lines (dict_append k l ((k0, b0) :: d)) c
                = inr (pk, cur') ->
              exists b d', pk = (k0, b) :: d').
    { intros k c. simpl. destruct (String.eqb k k0); apply IH. }
    destruct (negb (truthy_opt cur) && blank_or_comment l); [apply IH |].
    destruct (startswith l " "); [| apply St].
    destruct cur as [cp|]; [| discriminate].
    destruct (truthy cp); [apply St | discriminate].
Qed.

(** The first key of a parsed mapping is a content line. *)
Lemma parse_first_key (lines : list string) (pk : Packages)
    (cur : option string) (k : string) (b : list string) (d : Packages) :
  parse_loop lines [] None = inr (pk, cur) -> pk = (k, b) :: d ->
  blank_or_comment k = false.
Proof.
  rewrite parse_loop_content_lines.
  destruct (content_lines lines) as [|l rest] eqn:C.
  - simpl. intros [= <- _]. discriminate.
  - apply content_lines_head in C. simpl. rewrite C.
    destruct (startswith l " "); [discriminate |].
    simpl. intros H E. apply parse_loop_head in H as (b' & d' & H).
    congruence.
Qed.

(** ** Reading a rewritten file *)

Lemma universal_newlines_app (a b : string) :
  no_cr a = true ->
  universal_newlines (a ++ b) = (a ++ universal_newlines b)%string.
Proof.
  induction a as [|c a IH]; [reflexivity |].
  simpl. intros [Hc Ha]%andb_prop. apply negb_true_iff in Hc.
  rewrite Hc. now rewrite IH.
Qed.

Lemma requirements_text_no_parent (pk : Packages) :
  requirements_text pk [] =
  (header_text ++ nl ++ join (entry_lines pk))%string.
Proof. reflexivity. Qed.

Lemma requirements_text_parent (pk : Packages) (p : ReqFile)
    (ps : list ReqFile) :
  requirements_text pk (p :: ps) =
  (header_text ++ include_text p
   ++ join (map (fun p => "-r " ++ file_name p ++ nl) ps) ++ nl
   ++ join (entry_lines pk))%string.
Proof.
  unfold requirements_text, include_text. cbn [map join fold_right].
  now rewrite !sapp_assoc.
Qed.

Lemma include_text_line (p : ReqFile) :
  complete (include_text p) = true /\ no_cr (include_text p) = true /\
  blank_or_comment (include_text p) = false /\
  startswith (include_text p) " " = false /\
  truthy (include_text p) = true.
Proof. destruct p; repeat split; reflexivity. Qed.

(** A rewritten file that names a parent parses: its include line is
    taken for the identifier line of a first entry. *)
Lemma derived_text_parses (pk : Packages) (p : ReqFile) (ps : list ReqFile) :
  exists pk', parse_text (requirements_text pk (p :: ps)) = inr pk'.
Proof.
  rewrite requirements_text_parent. unfold parse_text, file_lines.
  destruct (include_text_line p) as (Hc & Hn & Hb & Hs & Ht).
  rewrite universal_newlines_app by reflexivity.
  rewrite universal_newlines_app by exact Hn.
  rewrite splitlines_complete by reflexivity.
  rewrite splitlines_complete by exact Hc.
  rewrite parse_loop_skip by reflexivity.
  rewrite parse_loop_key; [| now right | exact Hs].
  match goal with
  | |- context [parse_loop (splitlines ?t) ?d (Some ?c)] =>
      destruct (parse_loop_total (splitlines t) d c Ht
                  (text_lines_truthy _ (text_lines_splitlines t)))
        as (pk' & cp' & -> & _)
  end.
  eauto.
Qed.

Lemma splitlines_join_head (k : string) (F : list string) :
  mergeable (k :: F) -> startswith k " " = false ->
  exists R, splitlines (join (k :: F)) = k :: R.
Proof.
  intros HM Hk. rewrite join_cons.
  destruct (mergeable_head _ _ HM) as [Hc | [Hp [-> | Hs]]].
  - rewrite splitlines_complete by exact Hc. eauto.
  - rewrite splitlines_partial by exact Hp. simpl. eauto.
  - congruence.
Qed.

(** Parsing the rewritten base file gives a mapping with the same text. *)
Lemma reparse_base (text : string) (bp : Packages) :
  parse_text text = inr bp ->
  exists bp2, parse_text (requirements_text bp []) = inr bp2 /\
    join (entry_lines bp2) = join (entry_lines bp).
Proof.
  intros H. apply parse_text_inv in H as (cur & H & ND & FB & Hcur).
  pose proof (mergeable_parsed _ _ _ H) as HM.
  assert (Hcr : Forall (fun l => no_cr l = true) (entry_lines bp)).
  { apply (parse_loop_Forall _ (file_lines text) [] bp None cur);
      [apply no_cr_file_lines | constructor | exact H]. }
  assert (HG : grouped [] None (entry_lines bp)).
  { apply grouped_entry_lines; auto. }
  rewrite requirements_text_no_parent. unfold parse_text, file_lines.
  rewrite universal_newlines_app by reflexivity.
  rewrite (universal_newlines_app nl) by reflexivity.
  rewrite (universal_newlines_no_cr _ (no_cr_join _ Hcr)).
  rewrite splitlines_complete by reflexivity.
  rewrite (splitlines_complete nl) by reflexivity.
  rewrite !parse_loop_skip by reflexivity.
  pose proof (grouped_resplit _ [] None HM HG) as HR.
  pose proof (text_lines_truthy _ (text_lines_splitlines
                                     (join (entry_lines bp)))) as FR.
  pose proof (join_splitlines (join (entry_lines bp))) as HJ.
  destruct bp as [|[k b] d].
  - exists []. simpl. auto.
  - inversion FB as [|? ? Hb _]; subst. simpl in Hb.
    destruct Hb as (Hks & Hkt & tl & -> & _).
    pose proof (parse_first_key _ _ _ _ _ _ H eq_refl) as Hkb.
    rewrite entry_lines_cons in *.
    change ((k :: tl) ++ entry_lines d) with (k :: (tl ++ entry_lines d))
      in *.
    destruct (splitlines_join_head k _ HM Hks) as [R ER].
    rewrite ER in *. cbn [grouped] in HR. rewrite Hks in HR.
    destruct HR as [_ HR]. inversion FR as [|? ? _ FR']; subst.
    rewrite parse_loop_key; [| now right | exact Hks].
    destruct (parse_grouped R [] k [k]) as (pk' & cur' & H1 & H2);
      auto.
    simpl in H1. cbn [dict_append]. rewrite H1.
    exists pk'. split; [reflexivity |].
    rewrite H2. exact HJ.
Qed.

(** ** When the parser raises, and what it skips *)

Lemma content_lines_truthy (text : string) :
  Forall (fun l => truthy l = true) (content_lines (file_lines text)).
Proof.
  destruct (content_lines_suffix (file_lines text)) as (sk & E & _).
  pose proof (file_lines_truthy text) as F. rewrite E in F.
  now apply Forall_app in F.
Qed.

(** The parser either meets an indented first content line and raises, or
    returns. *)
Lemma parse_text_cases (text : string) :
  (indented_start text /\ parse_text text = inl unexpected_indentation) \/
  (~ indented_start text /\ exists pk, parse_text text = inr pk).
Proof.
  unfold indented_start, parse_text.
  rewrite parse_loop_content_lines, content_lines_first.
  pose proof (content_lines_truthy text) as F.
  destruct (content_lines (file_lines text)) as [|l rest] eqn:C.
  - right. split; [intros (l & H & _); discriminate H | now exists []].
  - apply content_lines_head in C. inversion F as [|? ? Hl Fr]; subst.
    destruct (startswith l " ") eqn:S.
    + left. split; [exists l; now split |]. simpl. now rewrite C, S.
    + right. split.
      * intros (l' & [= <-] & H). congruence.
      * rewrite parse_loop_key; [| now right | exact S].
        destruct (parse_loop_total rest (dict_append l l []) l Hl Fr)
          as (pk & cp & -> & _).
        now exists pk.
Qed.

(** X1: the only exception of the parser is the "unexpected indentation"
    error, raised exactly when the first content line of the file begins
    with a space; on every other text the parser returns a mapping. *)
Theorem parse_raises_only_indentation (text : string) :
  (forall e, parse_text text = inl e <->
             e = unexpected_indentation /\ indented_start text) /\
  ((exists pk, parse_text text = inr pk) <-> ~ indented_start text).
Proof.
  destruct (parse_text_cases text) as [[Hi Hp] | [Hi [pk Hp]]]; split.
  - intros e. rewrite Hp. split; [intros [= <-]; now split |].
    now intros [-> _].
  - rewrite Hp. split; [intros [pk H]; discriminate H | contradiction].
  - intros e. rewrite Hp. split; [discriminate | tauto].
  - split; [trivial | eauto].
Qed.

(** X2: the parser returns the empty mapping exactly when the file has no
    content line, that is when it is empty or holds only blank and
    comment lines. *)
Theorem parse_empty_mapping (text : string) :
  parse_text text = inr [] <->
  Forall (fun l => blank_or_comment l = true) (file_lines text).
Proof.
  unfold parse_text. rewrite parse_loop_content_lines.
  destruct (content_lines_suffix (file_lines text)) as (sk & E & Fs).
  pose proof (content_lines_truthy text) as F.
  destruct (content_lines (file_lines text)) as [|l rest] eqn:C.
  - rewrite E, app_nil_r. simpl. tauto.
  - apply content_lines_head in C. split.
    + simpl. rewrite C. destruct (startswith l " "); [discriminate |].
      simpl. destruct (String.eqb l l);
        destruct (parse_loop rest _ (Some l)) as [e | [pk cur]] eqn:H;
        try discriminate;
        apply parse_loop_head in H as (b & d & ->); discriminate.
    + intros Fa. rewrite E in Fa. apply Forall_app in Fa as [_ Fa].
      inversion Fa; congruence.
Qed.

Lemma splitlines_join_complete (F : list string) (s : string) :
  Forall (fun l => complete l = true) F ->
  splitlines (join F ++ s) = F ++ splitlines s.
Proof.
  induction 1 as [|l F Hl _ IH]; [reflexivity |].
  rewrite join_cons, sapp_assoc, splitlines_complete by exact Hl.
  simpl. now rewrite IH.
Qed.

Lemma parse_loop_skip_all (skipped rest : list string) (pk : Packages) :
  Forall (fun l => blank_or_comment l = true) skipped ->
  parse_loop (skipped ++ rest) pk None = parse_loop rest pk None.
Proof.
  induction 1 as [|l sk Hl _ IH]; [reflexivity |].
  simpl app. now rewrite parse_loop_skip.
Qed.

(** X3: blank and comment lines before the first content line are
    dropped: a text and the same text below a header of such lines parse
    to the same result. *)
Theorem leading_comments_dropped (header : list string) (text : string) :
  Forall (fun l => complete l = true) header ->
  Forall (fun l => no_cr l = true) header ->
  Forall (fun l => blank_or_comment l = true) header ->
  parse_text (join header ++ text) = parse_text text.
Proof.
  intros Hc Hn Hb. unfold parse_text, file_lines.
  rewrite universal_newlines_app by now apply no_cr_join.
  rewrite splitlines_join_complete by exact Hc.
  now rewrite parse_loop_skip_all.
Qed.

(** X7: in every mapping the parser returns, a key is a non-empty line
    that does not begin with a space, every line of its block is the key
    again or begins with a space, no line of a block is empty, and the
    first key is neither blank nor a comment. *)
Theorem parsed_mapping_shape (text : string) (pk : Packages) :
  parse_text text = inr pk ->
  (forall k blk, In (k, blk) pk ->
     truthy k = true /\ startswith k " " = false /\
     forall l, In l blk ->
       truthy l = true /\ (l = k \/ startswith l " " = true)) /\
  (forall k blk rest, pk = (k, blk) :: rest -> blank_or_comment k = false).
Proof.
  intros H. apply parse_text_inv in H as (cur & H & _ & FB & _).
  assert (Ft : Forall (fun l => truthy l = true) (entry_lines pk)).
  { apply (parse_loop_Forall _ (file_lines text) [] pk None cur);
      [apply file_lines_truthy | constructor | exact H]. }
  split.
  - intros k blk HI. rewrite Forall_forall in FB, Ft.
    destruct (FB _ HI) as (Hs & Ht & tl & -> & Htl).
    split; [exact Ht |]. split; [exact Hs |]. intros l Hl. split.
    + apply Ft. exact (In_block_entry_lines _ _ _ _ HI Hl).
    + destruct Hl as [<- | Hl]; [now left |].
      rewrite Forall_forall in Htl. auto.
  - intros k blk rest E. exact (parse_first_key _ _ _ _ _ _ H E).
Qed.

(** ** What the parser keeps, and in which order *)

Lemma entry_lines_dict_append_perm (k l : string) (d : Packages) :
  Permutation (entry_lines (dict_append k l d)) (l :: entry_lines d).
Proof.
  destruct (entry_lines_dict_append k l d) as (A & B & -> & -> & _).
  symmetry. apply Permutation_middle.
Qed.

Lemma parse_loop_perm (lines : list string) (pk pk' : Packages)
    (cp : string) (cur' : option string) :
  Forall (fun l => truthy l = true) lines -> truthy cp = true ->
  parse_loop lines pk (Some cp) = inr (pk', cur') ->
  Permutation (entry_lines pk') (entry_lines pk ++ lines).
Proof.
  intros F. revert pk cp.
  induction F as [|l lines Hl _ IH]; intros pk cp Ht.
  - simpl. intros [= <- _]. now rewrite app_nil_r.
  - assert (St : forall k c, truthy c = true ->
              parse_loop lines (dict_append k l pk) (Some c)
                = inr (pk', cur') ->
              Permutation (entry_lines pk') (entry_lines pk ++ l :: lines)).
    { intros k c Hc H. rewrite (IH _ _ Hc H).
      rewrite (entry_lines_dict_append_perm k l pk). simpl.
      apply Permutation_middle. }
    destruct (startswith l " ") eqn:E.
    + rewrite parse_loop_indent by assumption. now apply St.
    + rewrite parse_loop_key; [| now left | exact E]. now apply St.
Qed.

(** The parser from its first content line on. *)
Lemma parse_text_from_content (text : string) (pk : Packages) :
  parse_text text = inr pk ->
  (content_lines (file_lines text) = [] /\ pk = []) \/
  exists l rest cur,
    content_lines (file_lines text) = l :: rest /\
    blank_or_comment l = false /\ startswith l " " = false /\
    truthy l = true /\ Forall (fun x => truthy x = true) rest /\
    parse_loop rest [(l, [l])] (Some l) = inr (pk, cur).
Proof.
  intros H. apply parse_text_inv in H as (cur & H & _).
  rewrite parse_loop_content_lines in H.
  pose proof (content_lines_truthy text) as F.
  destruct (content_lines (file_lines text)) as [|l rest] eqn:C.
  - left. simpl in H. injection H as <- _. now split.
  - right. apply content_lines_head in C.
    inversion F as [|? ? Hl Fr]; subst.
    destruct (startswith l " ") eqn:S.
    + simpl in H. rewrite C, S in H. discriminate H.
    + rewrite parse_loop_key in H; [| now right | exact S].
      exists l, rest, cur. repeat split; assumption.
Qed.

(** X4: the parser loses no line and invents none: the lines of the
    blocks of the mapping are, up to their order, the lines of the file
    from its first content line on. *)
Theorem parse_keeps_every_line (text : string) (pk : Packages) :
  parse_text text = inr pk ->
  Permutation (entry_lines pk) (content_lines (file_lines text)).
Proof.
  intros H.
  destruct (parse_text_from_content text pk H)
    as [[-> ->] | (l & rest & cur & -> & _ & _ & Hl & Fr & Hp)];
    [constructor |].
  exact (parse_loop_perm rest _ _ l cur Fr Hl Hp).
Qed.

Lemma existsb_eqb_In (l : string) (seen : list string) :
  existsb (String.eqb l) seen = true <-> In l seen.
Proof.
  rewrite existsb_exists. split.
  - intros [x [Hx E]]. apply String.eqb_eq in E. now subst.
  - intros H. exists l. split; [exact H | apply String.eqb_refl].
Qed.

Lemma first_occurrences_ext (s1 s2 lines : list string) :
  (forall x, In x s1 <-> In x s2) ->
  first_occurrences s1 lines = first_occurrences s2 lines.
Proof.
  revert s1 s2. induction lines as [|l lines IH]; intros s1 s2 Hs;
    [reflexivity |].
  simpl.
  assert (E : existsb (String.eqb l) s1 = existsb (String.eqb l) s2).
  { apply eq_true_iff_eq. now rewrite !existsb_eqb_In. }
  rewrite E. destruct (existsb (String.eqb l) s2); [now apply IH |].
  f_equal. apply IH. intros x. simpl. now rewrite Hs.
Qed.

Lemma parse_loop_keys (lines : list string) (pk pk' : Packages)
    (cp : string) (cur' : option string) :
  Forall (fun l => truthy l = true) lines -> truthy cp = true ->
  In cp (keys pk) ->
  parse_loop lines pk (Some cp) = inr (pk', cur') ->
  keys pk' = keys pk ++ first_occurrences (keys pk) (identifier_lines lines).
Proof.
  intros F. revert pk cp.
  induction F as [|l lines Hl _ IH]; intros pk cp Ht Hin.
  - simpl. intros [= <- _]. now rewrite app_nil_r.
  - unfold identifier_lines. cbn [filter].
    destruct (startswith l " ") eqn:E; cbn [negb].
    + rewrite parse_loop_indent by assumption. intros H.
      apply (IH _ _ Ht) in H.
      * rewrite keys_dict_append_old in H by assumption. exact H.
      * now rewrite keys_dict_append_old.
    + rewrite parse_loop_key; [| now left | exact E]. intros H.
      assert (Hl' : In l (keys (dict_append l l pk)))
        by (apply In_keys_dict_append; now left).
      rewrite (IH _ _ Hl Hl' H). cbn [first_occurrences].
      destruct (existsb (String.eqb l) (keys pk)) eqn:X.
      * apply existsb_eqb_In in X. now rewrite keys_dict_append_old.
      * assert (N : ~ In l (keys pk)).
        { intros HI. apply existsb_eqb_In in HI. congruence. }
        rewrite keys_dict_append_new by exact N.
        rewrite <- app_assoc. simpl. do 2 f_equal.
        apply first_occurrences_ext. intros x. rewrite in_app_iff. simpl.
        tauto.
Qed.

Lemma parse_text_keys (text : string) (pk : Packages) :
  parse_text text = inr pk ->
  keys pk =
  first_occurrences [] (identifier_lines (content_lines (file_lines text))).
Proof.
  intros H.
  destruct (parse_text_from_content text pk H)
    as [[-> ->] | (l & rest & cur & -> & _ & Hs & Hl & Fr & Hp)];
    [reflexivity |].
  unfold identifier_lines. cbn [filter]. rewrite Hs. cbn [negb].
  cbn [first_occurrences existsb].
  apply (parse_loop_keys rest _ _ l cur Fr Hl) in Hp; [| now left].
  exact Hp.
Qed.

(** X5: the keys of the mapping are the identifier lines of the file from
    its first content line on, each once, in the order in which they first
    occur. *)
Theorem keys_in_order_of_first_occurrence (text : string) (pk : Packages) :
  parse_text text = inr pk ->
  keys pk =
  first_occurrences [] (identifier_lines (content_lines (file_lines text))).
Proof. apply parse_text_keys. Qed.

Lemma first_occurrences_NoDup (seen lines : list string) :
  NoDup lines -> (forall x, In x lines -> ~ In x seen) ->
  first_occurrences seen lines = lines.
Proof.
  intros ND. revert seen. induction ND as [|l lines Hl ND IH]; intros seen Hs;
    [reflexivity |].
  simpl. destruct (existsb (String.eqb l) seen) eqn:X.
  - apply existsb_eqb_In in X. exfalso. apply (Hs l); [now left | exact X].
  - f_equal. apply IH. intros x Hx [<- | HI]; [contradiction |].
    apply (Hs x); [now right | exact HI].
Qed.

Lemma NoDup_grouped (M seen : list string) (cur : option string) :
  NoDup (identifier_lines M) ->
  (forall k, In k (identifier_lines M) -> ~ In k seen) ->
  cur <> None -> grouped seen cur M.
Proof.
  revert seen cur. induction M as [|l M IH]; intros seen cur ND Hs Hc;
    [exact I |].
  unfold identifier_lines in *. cbn [filter grouped] in *.
  destruct (startswith l " "); cbn [negb] in *.
  - split; [exact Hc | now apply IH].
  - inversion ND as [|? ? Hl ND']; subst. split.
    + right. apply Hs. now left.
    + apply IH; [exact ND' | | discriminate].
      intros k Hk [<- | HI]; [contradiction |].
      apply (Hs k); [now right | exact HI].
Qed.

(** X6: when no identifier line of the file is repeated, the mapping
    keeps the lines of the file in their order, its keys are the
    identifier lines, and the file rewritten without parents is the header
    line, a blank line and the text of the file as it was read, without
    the blank and comment lines before its first content line. *)
Theorem distinct_identifiers_keep_order (text : string) (pk : Packages) :
  parse_text text = inr pk ->
  NoDup (identifier_lines (content_lines (file_lines text))) ->
  entry_lines pk = content_lines (file_lines text) /\
  keys pk = identifier_lines (content_lines (file_lines text)) /\
  requirements_text pk [] =
  (header_text ++ nl ++ join (content_lines (file_lines text)))%string /\
  exists skipped,
    Forall (fun l => blank_or_comment l = true) skipped /\
    universal_newlines text =
    (join skipped ++ join (content_lines (file_lines text)))%string.
Proof.
  intros H ND.
  assert (HL : entry_lines pk = content_lines (file_lines text)).
  { destruct (parse_text_from_content text pk H)
      as [[-> ->] | (l & rest & cur & E & _ & Hs & Hl & Fr & Hp)];
      [reflexivity |].
    rewrite E in ND |- *. unfold identifier_lines in ND. cbn [filter] in ND.
    rewrite Hs in ND. cbn [negb] in ND.
    inversion ND as [|? ? Hn ND']; subst.
    destruct (parse_grouped rest [] l [l]) as (pk' & cur' & H1 & H2);
      auto.
    - apply NoDup_grouped; [exact ND' | | discriminate].
      intros k Hk [<- | []]. contradiction.
    - simpl in H1. rewrite Hp in H1. injection H1 as <- _. exact H2. }
  split; [exact HL |]. split; [| split].
  - rewrite (parse_text_keys text pk H).
    apply first_occurrences_NoDup; [exact ND | intros x _ []].
  - rewrite requirements_text_no_parent. now rewrite HL.
  - destruct (content_lines_suffix (file_lines text)) as (sk & E & Fs).
    exists sk. split; [exact Fs |].
    rewrite <- join_app, <- E. symmetry. apply join_splitlines.
Qed.

(** ** Writing a mapping and parsing it back *)

Lemma parse_block_tail (tl M : list string) (pk1 : Packages) (k : string)
    (b : list string) :
  Forall (fun l => l = k \/ startswith l " " = true) tl ->
  startswith k " " = false -> truthy k = true -> ~ In k (keys pk1) ->
  parse_loop (tl ++ M) (pk1 ++ [(k, b)]) (Some k) =
  parse_loop M (pk1 ++ [(k, b ++ tl)]) (Some k).
Proof.
  intros F Hs Ht Hn. revert b.
  induction F as [|l tl Hl _ IH]; intros b; [now rewrite app_nil_r |].
  simpl app. destruct (startswith l " ") eqn:E.
  - rewrite parse_loop_indent, dict_append_last by assumption.
    rewrite IH. now rewrite <- app_assoc.
  - destruct Hl as [-> | Hl]; [| congruence].
    rewrite parse_loop_key; [| now left | exact E].
    rewrite dict_append_last by assumption.
    rewrite IH. now rewrite <- app_assoc.
Qed.

Lemma parse_blocks (d pk0 : Packages) (cp : string) (blk : list string) :
  Forall block_of_key d -> NoDup (keys pk0 ++ cp :: keys d) ->
  truthy cp = true ->
  exists cur',
    parse_loop (entry_lines d) (pk0 ++ [(cp, blk)]) (Some cp)
    = inr (pk0 ++ (cp, blk) :: d, cur').
Proof.
  intros F. revert pk0 cp blk.
  induction F as [|[k b] d Hb _ IH]; intros pk0 cp blk ND Ht.
  - exists (Some cp). reflexivity.
  - destruct Hb as (Hs & Hkt & tl & -> & Htl).
    assert (Hn : ~ In k (keys (pk0 ++ [(cp, blk)]))).
    { rewrite keys_app. simpl.
      change (keys pk0 ++ cp :: keys ((k, k :: tl) :: d))
        with (keys pk0 ++ [cp] ++ k :: keys d) in ND.
      rewrite app_assoc in ND. apply NoDup_remove_2 in ND.
      intros HI. apply ND. apply in_app_iff. now left. }
    rewrite entry_lines_cons. simpl app.
    rewrite parse_loop_key; [| now left | exact Hs].
    rewrite dict_append_new by exact Hn.
    rewrite (parse_block_tail tl (entry_lines d) _ k [k] Htl Hs Hkt Hn).
    destruct (IH (pk0 ++ [(cp, blk)]) k ([k] ++ tl)) as [cur' H];
      [| exact Hkt |].
    + rewrite keys_app. simpl. rewrite <- app_assoc. exact ND.
    + exists cur'. rewrite H. now rewrite <- app_assoc.
Qed.

Lemma splitlines_complete_lines (F : list string) :
  Forall (fun l => complete l = true) F -> splitlines (join F) = F.
Proof.
  intros H. rewrite <- (sapp_nil_r (join F)).
  rewrite splitlines_join_complete by exact H. apply app_nil_r.
Qed.

(** X8: for a file whose every line ends in a line feed, writing the
    parsed mapping without parents and parsing the written text gives the
    mapping back: the same keys in the same order with the same blocks. *)
Theorem write_then_parse (text : string) (pk : Packages) :
  parse_text text = inr pk ->
  Forall (fun l => complete l = true) (file_lines text) ->
  parse_text (requirements_text pk []) = inr pk.
Proof.
  intros H Hc. apply parse_text_inv in H as (cur & H & ND & FB & _).
  assert (Fc : Forall (fun l => complete l = true) (entry_lines pk)).
  { apply (parse_loop_Forall _ (file_lines text) [] pk None cur);
      [exact Hc | constructor | exact H]. }
  assert (Fn : Forall (fun l => no_cr l = true) (entry_lines pk)).
  { apply (parse_loop_Forall _ (file_lines text) [] pk None cur);
      [apply no_cr_file_lines | constructor | exact H]. }
  rewrite requirements_text_no_parent. unfold parse_text, file_lines.
  rewrite universal_newlines_app by reflexivity.
  rewrite (universal_newlines_app nl) by reflexivity.
  rewrite (universal_newlines_no_cr _ (no_cr_join _ Fn)).
  rewrite splitlines_complete by reflexivity.
  rewrite (splitlines_complete nl) by reflexivity.
  rewrite !parse_loop_skip by reflexivity.
  rewrite (splitlines_complete_lines _ Fc).
  destruct pk as [|[k b] d]; [reflexivity |].
  pose proof (parse_first_key _ _ _ _ _ _ H eq_refl) as Hkb.
  inversion FB as [|? ? Hb FB']; subst. simpl in Hb.
  destruct Hb as (Hs & Ht & tl & -> & Htl).
  rewrite entry_lines_cons. simpl app.
  rewrite parse_loop_key; [| now right | exact Hs].
  cbn [dict_append].
  pose proof (parse_block_tail tl (entry_lines d) [] k [k] Htl Hs Ht
                (fun HI => HI)) as Htail.
  simpl in Htail. rewrite Htail.
  destruct (parse_blocks d [] k (k :: tl) FB' ND Ht) as [cur' H'].
  simpl in H'. now rewrite H'.
Qed.

Lemma no_cr_include_lines (ps : list ReqFile) :
  Forall (fun l => no_cr l = true) (map include_text ps).
Proof.
  induction ps as [|p ps IH]; constructor; [| exact IH].
  apply (include_text_line p).
Qed.

Lemma complete_include_lines (ps : list ReqFile) :
  Forall (fun l => complete l = true) (map include_text ps).
Proof.
  induction ps as [|p ps IH]; constructor; [| exact IH].
  apply (include_text_line p).
Qed.

Lemma truthy_include_lines (ps : list ReqFile) :
  Forall (fun l => truthy l = true) (map include_text ps).
Proof.
  induction ps as [|p ps IH]; constructor; [| exact IH].
  apply (include_text_line p).
Qed.

(** The lines of a rewritten file that names a parent. *)
Lemma file_lines_requirements_text (pk : Packages) (p : ReqFile)
    (ps : list ReqFile) :
  file_lines (requirements_text pk (p :: ps)) =
  header_text :: include_text p
  :: map include_text ps
     ++ nl :: splitlines (universal_newlines (join (entry_lines pk))).
Proof.
  rewrite requirements_text_parent. unfold file_lines.
  change (map (fun p0 => ("-r " ++ file_name p0 ++ nl)%string) ps)
    with (map include_text ps).
  rewrite universal_newlines_app by reflexivity.
  rewrite universal_newlines_app by apply (include_text_line p).
  rewrite universal_newlines_app
    by apply no_cr_join, no_cr_include_lines.
  rewrite (universal_newlines_app nl) by reflexivity.
  rewrite splitlines_complete by reflexivity.
  rewrite splitlines_complete by apply (include_text_line p).
  rewrite splitlines_join_complete by apply complete_include_lines.
  now rewrite (splitlines_complete nl) by reflexivity.
Qed.

(** X9: read back, a rewritten file that names a parent does not parse to
    the entries that were written: its first include line is taken for the
    identifier line of a first entry, and the blank line after the include
    lines for the identifier line of another. *)
Theorem include_line_parsed_as_entry (pk : Packages) (p : ReqFile)
    (ps : list ReqFile) :
  exists pk' tl rest,
    parse_text (requirements_text pk (p :: ps)) = inr pk' /\
    pk' = (include_text p, include_text p :: tl) :: rest /\
    In nl (keys pk').
Proof.
  unfold parse_text. rewrite file_lines_requirements_text.
  destruct (include_text_line p) as (_ & _ & Hb & Hs & Ht).
  rewrite parse_loop_skip by reflexivity.
  rewrite parse_loop_key; [| now right | exact Hs].
  cbn [dict_append]. rewrite parse_loop_app.
  destruct (parse_loop_total (map include_text ps)
              [(include_text p, [include_text p])] (include_text p) Ht
              (truthy_include_lines ps)) as (pk1 & c1 & H1 & Hc1).
  rewrite H1. rewrite parse_loop_key; [| now left | reflexivity].
  match goal with
  | |- context [parse_loop (splitlines ?t) ?d (Some nl)] =>
      destruct (parse_loop_total (splitlines t) d nl eq_refl
                  (text_lines_truthy _ (text_lines_splitlines t)))
        as (pk' & cp' & H2 & _)
  end.
  rewrite H2.
  destruct (parse_loop_extends _ _ _ _ _ (include_text p) [include_text p] H1)
    as [b1 Hb1]; [simpl; now rewrite String.eqb_refl |].
  assert (Hne : include_text p <> nl) by (destruct p; discriminate).
  destruct (parse_loop_extends _ _ _ _ _ (include_text p)
              ([include_text p] ++ b1) H2) as [b2 Hb2].
  { rewrite lookup_dict_append_other by exact Hne. exact Hb1. }
  destruct (parse_loop_extends _ _ _ _ _ nl
              (match lookup nl pk1 with
               | Some b => b ++ [nl]
               | None => [nl]
               end) H2) as [b3 Hb3];
    [apply lookup_dict_append_same |].
  apply parse_loop_head in H1 as (b & d & ->).
  cbn [dict_append] in H2.
  destruct (String.eqb nl (include_text p)) eqn:E;
    [apply String.eqb_eq in E; congruence |].
  apply parse_loop_head in H2 as (b' & d' & ->).
  simpl in Hb2. rewrite String.eqb_refl in Hb2. injection Hb2 as ->.
  exists ((include_text p, ([include_text p] ++ b1) ++ b2) :: d'),
    (b1 ++ b2), d'.
  split; [reflexivity |]. split; [now rewrite <- app_assoc |].
  apply lookup_In in Hb3. exact (In_keys _ _ _ Hb3).
Qed.

(** ** Paths *)

Lemma parent_div (p : Path) (name : string) : parent (div p name) = p.
Proof. apply removelast_last. Qed.

Lemma relative_to_app (p q : Path) : relative_to (p ++ q) p = Some q.
Proof.
  induction p as [|c p IH]; simpl; [now destruct q |].
  now rewrite String.eqb_refl.
Qed.

Lemma relative_to_div (p : Path) (name : string) :
  relative_to (div p name) p = Some [name].
Proof. apply relative_to_app. Qed.

(** ** The script *)

Section ScriptProofs.

Variable Ext : Type.
Variable root : Path.

Lemma PROJECT_ROOT_root : PROJECT_ROOT root = root.
Proof. unfold PROJECT_ROOT, SCRIPT. now rewrite !parent_div. Qed.

Lemma script_relative :
  relative_to (SCRIPT root) (PROJECT_ROOT root) =
  Some ["dev"; "make_requirements.py"].
Proof.
  rewrite PROJECT_ROOT_root. unfold SCRIPT, div.
  rewrite <- app_assoc. apply relative_to_app.
Qed.

Lemma path_of_div (f : ReqFile) :
  path_of root f = div (REQUIREMENTS_DIR root) (file_name f).
Proof. now destruct f. Qed.

Lemma relative_parents_names (out : ReqFile) (parents : list ReqFile) :
  relative_parents root (parent (path_of root out)) parents =
  Some (map (fun p => [file_name p]) parents).
Proof.
  rewrite path_of_div, parent_div.
  induction parents as [|p ps IH]; simpl; [reflexivity |].
  now rewrite path_of_div, relative_to_div, IH.
Qed.

Lemma join_include_lines (parents : list ReqFile) :
  join (map include_line (map (fun p => [file_name p]) parents)) =
  join (map (fun p => "-r " ++ file_name p ++ nl)%string parents).
Proof. now rewrite map_map. Qed.

(** [write_requirements] never raises on the five files of the script,
    and writes the layout of [requirements_text]. *)
Lemma write_requirements_run (out : ReqFile) (pk : Packages)
    (parents : list ReqFile) (w : World Ext) :
  write_requirements root out pk parents w =
  (written out (requirements_text pk parents) w, inr tt).
Proof.
  unfold write_requirements.
  rewrite script_relative, relative_parents_names.
  unfold write_text, written. do 3 f_equal.
  unfold requirements_text.
  rewrite !join_app, join_include_lines, !join_single.
  reflexivity.
Qed.

Lemma bind_inr {A B} (m : IO Ext A) (k : A -> IO Ext B) (w w1 : World Ext)
    (a : A) :
  m w = (w1, inr a) -> bind m k w = k a w1.
Proof. unfold bind. now intros ->. Qed.

Lemma bind_inl {A B} (m : IO Ext A) (k : A -> IO Ext B) (w w1 : World Ext)
    (e : exn) :
  m w = (w1, inl e) -> bind m k w = (w1, inl e).
Proof. unfold bind. now intros ->. Qed.

Lemma bind_inr_inv {A B} (m : IO Ext A) (k : A -> IO Ext B)
    (w w' : World Ext) (b : B) :
  bind m k w = (w', inr b) ->
  exists w1 a, m w = (w1, inr a) /\ k a w1 = (w', inr b).
Proof.
  unfold bind. destruct (m w) as [w1 [e | a]]; [discriminate | eauto].
Qed.

Lemma parse_requirements_ok (f : ReqFile) (w : World Ext) (text : string)
    (pk : Packages) :
  read_file f (disk w) = Some text -> parse_text text = inr pk ->
  parse_requirements f w = (opened f w, inr pk).
Proof.
  intros Hr Hp. unfold parse_requirements, bind, open_read.
  now rewrite Hr, Hp.
Qed.

Lemma parse_requirements_raises (f : ReqFile) (w : World Ext) (text : string)
    (e : exn) :
  read_file f (disk w) = Some text -> parse_text text = inl e ->
  parse_requirements f w = (opened f w, inl e).
Proof.
  intros Hr Hp. unfold parse_requirements, bind, open_read.
  now rewrite Hr, Hp.
Qed.

Lemma parse_requirements_inv (f : ReqFile) (w w1 : World Ext)
    (pk : Packages) :
  parse_requirements f w = (w1, inr pk) ->
  exists text, read_file f (disk w) = Some text /\
    parse_text text = inr pk /\ w1 = opened f w.
Proof.
  unfold parse_requirements, bind, open_read.
  destruct (read_file f (disk w)) as [text|]; [| discriminate].
  destruct (parse_text text) as [e | pk'] eqn:E; [discriminate |].
  unfold ret. intros [= <- <-]. eauto.
Qed.

(** One statement of the script, run on the world the goal shows. *)
Ltac run_parse R P :=
  match goal with
  | |- context [bind (parse_requirements ?f) ?k ?W] =>
      rewrite (bind_inr (parse_requirements f) k W _ _
                 (parse_requirements_ok f W _ _ R P))
  end.

Ltac run_parse_raises R P :=
  match goal with
  | |- context [bind (parse_requirements ?f) ?k ?W] =>
      rewrite (bind_inl (parse_requirements f) k W _ _
                 (parse_requirements_raises f W _ _ R P))
  end.

Ltac run_write :=
  match goal with
  | |- context [bind (write_requirements ?r ?o ?pk ?ps) ?k ?W] =>
      rewrite (bind_inr (write_requirements r o pk ps) k W _ _
                 (write_requirements_run o pk ps W))
  end.

Ltac run_write_in H :=
  match type of H with
  | context [bind (write_requirements ?r ?o ?pk ?ps) ?k ?W] =>
      rewrite (bind_inr (write_requirements r o pk ps) k W _ _
                 (write_requirements_run o pk ps W)) in H
  end.

(** A run of [deduplicate_requirements] on four files that parse. *)
Lemma deduplicate_run (w : World Ext) (tb tp td tt' : string)
    (bp pp dp tp' : Packages) :
  read_file Base (disk w) = Some tb -> parse_text tb = inr bp ->
  read_file Production (disk w) = Some tp -> parse_text tp = inr pp ->
  read_file Development (disk w) = Some td -> parse_text td = inr dp ->
  read_file Testing (disk w) = Some tt' -> parse_text tt' = inr tp' ->
  deduplicate_requirements root w = (deduplicated bp pp dp tp' w, inr tt).
Proof.
  intros Rb Pb Rp Pp Rd Pd Rt Pt. unfold deduplicate_requirements.
  run_parse Rb Pb. run_write. run_parse Rp Pp. run_write.
  run_parse Rd Pd. run_write. run_parse Rt Pt. run_write.
  apply write_requirements_run.
Qed.

(** A run that returns has read and parsed the four files. *)
Lemma deduplicate_inv (w w' : World Ext) :
  deduplicate_requirements root w = (w', inr tt) ->
  exists tb tp td tt' bp pp dp tp',
    read_file Base (disk w) = Some tb /\ parse_text tb = inr bp /\
    read_file Production (disk w) = Some tp /\ parse_text tp = inr pp /\
    read_file Development (disk w) = Some td /\ parse_text td = inr dp /\
    read_file Testing (disk w) = Some tt' /\ parse_text tt' = inr tp' /\
    w' = deduplicated bp pp dp tp' w.
Proof.
  unfold deduplicate_requirements. intros H.
  apply bind_inr_inv in H as (w1 & bp & H1 & H).
  apply parse_requirements_inv in H1 as (tb & Rb & Pb & ->).
  run_write_in H.
  apply bind_inr_inv in H as (w2 & pp & H2 & H).
  apply parse_requirements_inv in H2 as (tp & Rp & Pp & ->).
  run_write_in H.
  apply bind_inr_inv in H as (w3 & dp & H3 & H).
  apply parse_requirements_inv in H3 as (td & Rd & Pd & ->).
  run_write_in H.
  apply bind_inr_inv in H as (w4 & tp' & H4 & H).
  apply parse_requirements_inv in H4 as (tt' & Rt & Pt & ->).
  run_write_in H.
  rewrite write_requirements_run in H. injection H as <-.
  exists tb, tp, td, tt', bp, pp, dp, tp'.
  repeat split; assumption.
Qed.

Lemma block_key_line (d : Packages) (P : string) :
  Forall block_of_key d -> startswith P " " = false ->
  In P (entry_lines d) -> In P (keys d).
Proof.
  intros F HP. induction F as [|[k b] d Hb _ IH]; simpl; [tauto |].
  rewrite entry_lines_cons, in_app_iff. intros [H | H]; [left | auto].
  destruct Hb as (_ & _ & tl & -> & Htl).
  destruct H as [E | H]; [exact E |].
  rewrite Forall_forall in Htl. destruct (Htl _ H); congruence.
Qed.

Lemma block_of_key_without (excl : list Packages) (d : Packages) :
  Forall block_of_key d -> Forall block_of_key (without excl d).
Proof.
  rewrite !Forall_forall. intros F x Hx. apply F.
  unfold without in Hx. now apply filter_In in Hx.
Qed.

Lemma parse_text_blocks (text : string) (pk : Packages) :
  parse_text text = inr pk -> NoDup (keys pk) /\ Forall block_of_key pk.
Proof.
  intros H. apply parse_text_inv in H as (cur & _ & ND & F & _). now split.
Qed.

Lemma key_not_indented (d : Packages) (k : string) :
  Forall block_of_key d -> In k (keys d) -> startswith k " " = false.
Proof.
  intros F H. apply In_keys_lookup in H as [b Hb]. apply lookup_In in Hb.
  rewrite Forall_forall in F. apply F in Hb. apply Hb.
Qed.

(** On the five files of the pass [write_requirements] never raises: for
    every mapping and every list of parents among them it overwrites the
    output file, whatever it held, with the header comment naming the
    script by its path below the project root, one [-r] line per parent
    in the order given, each with the name of the parent, one blank line,
    and the lines of every block in the order of the mapping.  Nothing
    else on disk changes. *)
Theorem write_requirements_layout (out : ReqFile) (packages : Packages)
    (parents : list ReqFile) (w : World Ext) :
  let text :=
    ("# This file was autogenerated via dev/make_requirements.py" ++ nl
     ++ join (map (fun p => "-r " ++ file_name p ++ nl) parents)
     ++ nl
     ++ join (List.concat (map snd packages)))%string in
  relative_to (SCRIPT root) (PROJECT_ROOT root)
    = Some ["dev"; "make_requirements.py"] /\
  (forall p, relative_to (path_of root p) (parent (path_of root out))
             = Some [file_name p]) /\
  exists w',
    write_requirements root out packages parents w = (w', inr tt) /\
    read_file out (disk w') = Some text /\
    (forall f, f <> out -> read_file f (disk w') = read_file f (disk w)) /\
    outside w' = outside w /\
    trace w' = trace w ++ [EvWrite out].
Proof.
  intros text. split; [apply script_relative |]. split.
  - intros p. rewrite !path_of_div, parent_div. apply relative_to_div.
  - exists (written out text w). split; [apply write_requirements_run |].
    repeat split.
    + now destruct out.
    + intros f Hf. destruct out, f; try reflexivity; congruence.
Qed.

(** C4: whenever [deduplicate_requirements] returns, [all.txt] holds the
    header, the three include lines for development, production and
    testing in this order, a blank line and no entry, whatever the file
    held before; the run never opens [all.txt]. *)
Theorem all_file_is_aggregator (w w' : World Ext) :
  deduplicate_requirements root w = (w', inr tt) ->
  read_file All (disk w')
    = Some (requirements_text [] [Development; Production; Testing]) /\
  file_lines (requirements_text [] [Development; Production; Testing]) =
    [ ("# This file was autogenerated via dev/make_requirements.py"
       ++ nl)%string;
      ("-r development.txt" ++ nl)%string;
      ("-r production.txt" ++ nl)%string;
      ("-r testing.txt" ++ nl)%string;
      nl ] /\
  exists events, trace w' = trace w ++ events /\ ~ In (EvOpen All) events.
Proof.
  intros H.
  apply deduplicate_inv in H
    as (tb & tp & td & tt' & bp & pp & dp & tp' & _ & _ & _ & _ & _ & _ & _
        & _ & ->).
  split; [reflexivity |]. split; [reflexivity |].
  eexists. split.
  - unfold deduplicated, written, opened. cbn [trace].
    rewrite <- !app_assoc. reflexivity.
  - simpl. intros H. repeat (destruct H as [H | H]; [discriminate H |]).
    exact H.
Qed.

(** C1: when [deduplicate_requirements] returns, the entries written to
    production, development and testing are exactly the entries parsed
    from that file whose identifier line is not a key of the parsed base
    file (for testing: nor a key of the parsed development file); so no
    key of base is a key, or a line of an entry, of a derived file. *)
Theorem base_keys_left_out (w w' : World Ext) :
  deduplicate_requirements root w = (w', inr tt) ->
  exists bp pp dp tp pu du tu,
    parsed_as Base (disk w) bp /\ parsed_as Production (disk w) pp /\
    parsed_as Development (disk w) dp /\ parsed_as Testing (disk w) tp /\
    read_file Production (disk w') = Some (requirements_text pu [Base]) /\
    read_file Development (disk w') = Some (requirements_text du [Base]) /\
    read_file Testing (disk w')
      = Some (requirements_text tu [Development]) /\
    (forall k b, In (k, b) pu <-> In (k, b) pp /\ ~ In k (keys bp)) /\
    (forall k b, In (k, b) du <-> In (k, b) dp /\ ~ In k (keys bp)) /\
    (forall k b, In (k, b) tu <->
                 In (k, b) tp /\ ~ In k (keys bp) /\ ~ In k (keys dp)) /\
    forall P, In P (keys bp) ->
      ~ In P (keys pu) /\ ~ In P (keys du) /\ ~ In P (keys tu) /\
      ~ In P (entry_lines pu) /\ ~ In P (entry_lines du) /\
      ~ In P (entry_lines tu).
Proof.
  intros H.
  apply deduplicate_inv in H
    as (tb & tp & td & tt' & bp & pp & dp & tp' & Rb & Pb & Rp & Pp & Rd & Pd
        & Rt & Pt & ->).
  exists bp, pp, dp, tp', (without [bp] pp), (without [bp] dp),
    (without [bp; dp] tp').
  repeat match goal with |- parsed_as _ _ _ /\ _ => split; [red; eauto |] end.
  do 3 (split; [reflexivity |]).
  assert (K : forall excl d P, In bp excl -> In P (keys bp) ->
                               ~ In P (keys (without excl d))).
  { intros excl d P He HP HI. apply In_keys_without in HI as [_ HI].
    exact (HI bp He HP). }
  split; [| split; [| split]].
  - intros k b. rewrite In_without. simpl. split.
    + intros [H1 H2]. split; [exact H1 | apply H2; now left].
    + intros [H1 H2]. split; [exact H1 | intros e [<- | []]; exact H2].
  - intros k b. rewrite In_without. simpl. split.
    + intros [H1 H2]. split; [exact H1 | apply H2; now left].
    + intros [H1 H2]. split; [exact H1 | intros e [<- | []]; exact H2].
  - intros k b. rewrite In_without. simpl. split.
    + intros [H1 H2]. repeat split; [exact H1 | apply H2 | apply H2]; auto.
    + intros (H1 & H2 & H3). split; [exact H1 |].
      intros e [<- | [<- | []]]; assumption.
  - intros P HP.
    assert (HPs : startswith P " " = false).
    { apply (key_not_indented bp); [apply (parse_text_blocks tb) |]; auto. }
    assert (L : forall excl text d, parse_text text = inr d -> In bp excl ->
                                    ~ In P (entry_lines (without excl d))).
    { intros excl text d Hd He HI. apply (K excl d P He HP).
      apply block_key_line; [| exact HPs | exact HI].
      apply block_of_key_without. now apply (parse_text_blocks text). }
    repeat split.
    + apply K; simpl; auto.
    + apply K; simpl; auto.
    + apply K; simpl; auto.
    + apply (L _ tp); simpl; auto.
    + apply (L _ td); simpl; auto.
    + apply (L _ tt'); simpl; auto.
Qed.

Lemma parsed_as_fun (f : ReqFile) (d : FS) (pk pk' : Packages) :
  parsed_as f d pk -> parsed_as f d pk' -> pk = pk'.
Proof. intros (t & R & P) (t' & R' & P'). congruence. Qed.

Lemma requirements_text_split (before after : Packages) (k : string)
    (blk : list string) (parents : list ReqFile) :
  requirements_text (before ++ (k, blk) :: after) parents =
  (requirements_text before parents ++ join blk
   ++ join (entry_lines after))%string.
Proof.
  unfold requirements_text.
  rewrite entry_lines_app, entry_lines_cons, !join_app.
  now rewrite !sapp_assoc.
Qed.

(** C5: an identifier line [P] that is a key of the parsed development
    file and not a key of the parsed base file keeps its block, character
    for character, in the rewritten development file, and is neither a key
    nor a line of any entry written to the testing file, whether or not
    the parsed testing file has it as a key. *)
Theorem development_keys_left_out_of_testing (w w' : World Ext)
    (bp dp tp : Packages) (P : string) (blk : list string) :
  deduplicate_requirements root w = (w', inr tt) ->
  parsed_as Base (disk w) bp -> parsed_as Development (disk w) dp ->
  parsed_as Testing (disk w) tp ->
  In (P, blk) dp -> ~ In P (keys bp) ->
  (exists before after,
     read_file Development (disk w')
       = Some (requirements_text before [Base] ++ join blk
               ++ join (entry_lines after))%string) /\
  exists tu,
    read_file Testing (disk w')
      = Some (requirements_text tu [Development]) /\
    (forall k b, In (k, b) tu <->
                 In (k, b) tp /\ ~ In k (keys bp) /\ ~ In k (keys dp)) /\
    ~ In P (keys tu) /\ ~ In P (entry_lines tu).
Proof.
  intros H Hb Hd Ht HP HPb.
  apply deduplicate_inv in H
    as (tb & tp0 & td & tt' & bp' & pp & dp' & tp' & Rb & Pb & Rp & Pp & Rd
        & Pd & Rt & Pt & ->).
  assert (bp' = bp) as -> by (eapply parsed_as_fun; [red | ]; eauto).
  assert (dp' = dp) as -> by (eapply parsed_as_fun; [red | ]; eauto).
  assert (tp' = tp) as -> by (eapply parsed_as_fun; [red | ]; eauto).
  split.
  - assert (I : In (P, blk) (without [bp] dp)).
    { apply In_without. split; [exact HP |]. intros e [<- | []]. exact HPb. }
    apply in_split in I as (before & after & E).
    exists before, after.
    rewrite <- (requirements_text_split before after P blk), <- E.
    reflexivity.
  - exists (without [bp; dp] tp). split; [reflexivity |].
    assert (K : ~ In P (keys (without [bp; dp] tp))).
    { intros HI. apply In_keys_without in HI as [_ HI].
      apply (HI dp); [simpl; auto | exact (In_keys _ _ _ HP)]. }
    split; [| split; [exact K |]].
    + intros k b. rewrite In_without. simpl. split.
      * intros [H1 H2]. repeat split; [exact H1 | apply H2 | apply H2]; auto.
      * intros (H1 & H2 & H3). split; [exact H1 |].
        intros e [<- | [<- | []]]; assumption.
    + intros HI. apply K. apply block_key_line; [| | exact HI].
      * apply block_of_key_without. now apply (parse_text_blocks tt').
      * apply (key_not_indented dp); [now apply (parse_text_blocks td) |].
        exact (In_keys _ _ _ HP).
Qed.

Lemma indented_start_raises (text : string) :
  indented_start text -> parse_text text = inl unexpected_indentation.
Proof.
  intros (l & Hf & Hs). unfold parse_text.
  now rewrite (parse_loop_indented_start _ _ Hf Hs).
Qed.

Lemma mapping_of_Some (f : ReqFile) (d : FS) :
  mapping_of f d <> None ->
  exists text pk, read_file f d = Some text /\ parse_text text = inr pk /\
                  mapping_of f d = Some pk.
Proof.
  unfold mapping_of. destruct (read_file f d) as [text|]; [| congruence].
  destruct (parse_text text) as [e | pk] eqn:E; [congruence |].
  intros _. exists text, pk. repeat split. exact E.
Qed.

(** C3 (as amended): when the file read at some step has a first content
    line that begins with a space, the parser raises the "unexpected
    indentation" error on it; when the files of the earlier steps parse,
    [deduplicate_requirements] raises that error at that step: it has
    opened and rewritten the files of the earlier steps, which hold their
    rewritten text, it has opened the file of the step, and it has
    written neither that file nor any later one. *)
Theorem indented_start_aborts_pass (w : World Ext) (step : ReqFile)
    (text : string) :
  In step [Base; Production; Development; Testing] ->
  read_file step (disk w) = Some text ->
  indented_start text ->
  (forall f, In f (steps_before step) -> mapping_of f (disk w) <> None) ->
  parse_text text = inl unexpected_indentation /\
  exists w',
    deduplicate_requirements root w = (w', inl unexpected_indentation) /\
    trace w' =
      trace w
      ++ flat_map (fun f => [EvOpen f; EvWrite f]) (steps_before step)
      ++ [EvOpen step] /\
    (forall f, In f (steps_before step) ->
       read_file f (disk w') = rewritten (disk w) f /\
       rewritten (disk w) f <> None) /\
    (forall f, ~ In f (steps_before step) ->
       read_file f (disk w') = read_file f (disk w)) /\
    outside w' = outside w.
Proof.
  intros Hstep Hr Hind Hbefore.
  apply indented_start_raises in Hind.
  assert (M : forall f, In f (steps_before step) ->
                exists t pk, read_file f (disk w) = Some t /\
                  parse_text t = inr pk /\ mapping_of f (disk w) = Some pk).
  { intros f Hf. apply mapping_of_Some. now apply Hbefore. }
  split; [exact Hind |].
  unfold deduplicate_requirements.
  destruct step; cbn [steps_before] in *.
  - (* base.txt *)
    run_parse_raises Hr Hind. eexists. split; [reflexivity |].
    split; [reflexivity |]. split; [intros f [] |].
    split; [reflexivity | reflexivity].
  - (* production.txt *)
    destruct (M Base) as (tb & bp & Rb & Pb & Mb); [simpl; auto |].
    run_parse Rb Pb. run_write. run_parse_raises Hr Hind.
    eexists. split; [reflexivity |].
    split; [cbn; now rewrite <- !app_assoc |].
    split; [| split; [| reflexivity]].
    + intros f [<- | []]. unfold rewritten. rewrite Mb.
      split; [reflexivity | discriminate].
    + intros f Hf. destruct f; try reflexivity. exfalso. apply Hf. now left.
  - (* development.txt *)
    destruct (M Base) as (tb & bp & Rb & Pb & Mb); [simpl; auto |].
    destruct (M Production) as (tp & pp & Rp & Pp & Mp); [simpl; auto |].
    run_parse Rb Pb. run_write. run_parse Rp Pp. run_write.
    run_parse_raises Hr Hind.
    eexists. split; [reflexivity |].
    split; [cbn; now rewrite <- !app_assoc |].
    split; [| split; [| reflexivity]].
    + intros f [<- | [<- | []]]; unfold rewritten; rewrite ?Mb, ?Mp;
        (split; [reflexivity | discriminate]).
    + intros f Hf. destruct f; try reflexivity; exfalso; apply Hf;
        simpl; auto.
  - (* testing.txt *)
    destruct (M Base) as (tb & bp & Rb & Pb & Mb); [simpl; auto |].
    destruct (M Production) as (tp & pp & Rp & Pp & Mp); [simpl; auto |].
    destruct (M Development) as (td & dp & Rd & Pd & Md); [simpl; auto |].
    run_parse Rb Pb. run_write. run_parse Rp Pp. run_write.
    run_parse Rd Pd. run_write. run_parse_raises Hr Hind.
    eexists. split; [reflexivity |].
    split; [cbn; now rewrite <- !app_assoc |].
    split; [| split; [| reflexivity]].
    + intros f [<- | [<- | [<- | []]]]; unfold rewritten;
        rewrite ?Mb, ?Mp, ?Md; (split; [reflexivity | discriminate]).
    + intros f Hf. destruct f; try reflexivity; exfalso; apply Hf;
        simpl; auto.
  - (* all.txt is not read *)
    exfalso. simpl in Hstep. intuition discriminate.
Qed.

(** C2 (as amended): after a run of [deduplicate_requirements] that
    returns, a second run on the files it left returns too, and leaves
    [base.txt] and [all.txt] byte for byte as the first run wrote them;
    the mapping parsed from the rewritten base file has the text of the
    mapping that was written. *)
Theorem second_run_keeps_base_and_all (w w1 : World Ext) :
  deduplicate_requirements root w = (w1, inr tt) ->
  exists w2,
    deduplicate_requirements root w1 = (w2, inr tt) /\
    read_file Base (disk w2) = read_file Base (disk w1) /\
    read_file All (disk w2) = read_file All (disk w1) /\
    exists bp bp2,
      parsed_as Base (disk w) bp /\ parsed_as Base (disk w1) bp2 /\
      read_file Base (disk w1) = Some (requirements_text bp []) /\
      join (entry_lines bp2) = join (entry_lines bp).
Proof.
  intros H.
  apply deduplicate_inv in H
    as (tb & tp & td & tt' & bp & pp & dp & tp' & Rb & Pb & Rp & Pp & Rd & Pd
        & Rt & Pt & ->).
  destruct (reparse_base tb bp Pb) as (bp2 & Pb2 & Hj).
  destruct (derived_text_parses (without [bp] pp) Base []) as [pp2 Pp2].
  destruct (derived_text_parses (without [bp] dp) Base []) as [dp2 Pd2].
  destruct (derived_text_parses (without [bp; dp] tp') Development [])
    as [tp2 Pt2].
  exists (deduplicated bp2 pp2 dp2 tp2 (deduplicated bp pp dp tp' w)).
  split.
  - apply (deduplicate_run _ (requirements_text bp [])
             (requirements_text (without [bp] pp) [Base])
             (requirements_text (without [bp] dp) [Base])
             (requirements_text (without [bp; dp] tp') [Development]));
      (reflexivity || assumption).
  - split; [| split; [reflexivity |]].
    + change (Some (requirements_text bp2 [])
              = Some (requirements_text bp [])).
      rewrite !requirements_text_no_parent. now rewrite Hj.
    + exists bp, bp2. split; [red; eauto |].
      split; [exists (requirements_text bp []); now split |].
      split; [reflexivity | exact Hj].
Qed.

(** *** Further properties of the pass *)

Lemma parse_requirements_missing (f : ReqFile) (w : World Ext) :
  read_file f (disk w) = None ->
  parse_requirements f w = (w, inl (FileNotFoundError f)).
Proof.
  intros Hr. unfold parse_requirements, bind, open_read. now rewrite Hr.
Qed.

Ltac run_parse_missing R :=
  match goal with
  | |- context [bind (parse_requirements ?f) ?k ?W] =>
      rewrite (bind_inl (parse_requirements f) k W _ _
                 (parse_requirements_missing f W R))
  end.

(** X10: when base, production, development and testing each hold text,
    the pass returns exactly when none of them has a first content line
    that begins with a space; whether [all.txt] exists, and what it holds,
    plays no part. *)
Theorem pass_returns_iff_files_parse (w : World Ext) :
  (forall f, In f [Base; Production; Development; Testing] ->
     exists text, read_file f (disk w) = Some text) ->
  ((exists w', deduplicate_requirements root w = (w', inr tt)) <->
   (forall f text, In f [Base; Production; Development; Testing] ->
      read_file f (disk w) = Some text -> ~ indented_start text)).
Proof.
  intros Hread. split.
  - intros [w' H].
    apply deduplicate_inv in H
      as (tb & tp & td & tt' & bp & pp & dp & tp' & Rb & Pb & Rp & Pp & Rd
          & Pd & Rt & Pt & _).
    assert (K : forall text pk, parse_text text = inr pk ->
                                ~ indented_start text).
    { intros text pk Hp.
      destruct (parse_text_cases text) as [[_ He] | [Hn _]];
        [congruence | exact Hn]. }
    intros f text [<- | [<- | [<- | [<- | []]]]] Hr;
      [rewrite Rb in Hr | rewrite Rp in Hr | rewrite Rd in Hr
      | rewrite Rt in Hr]; injection Hr as <-; eauto.
  - intros H.
    assert (K : forall f, In f [Base; Production; Development; Testing] ->
                exists text pk, read_file f (disk w) = Some text /\
                                parse_text text = inr pk).
    { intros f Hf. destruct (Hread f Hf) as (text & Hr).
      destruct (parse_text_cases text) as [[Hi _] | [_ [pk Hp]]];
        [exfalso; exact (H f text Hf Hr Hi) | eauto]. }
    destruct (K Base) as (tb & bp & Rb & Pb); [simpl; auto |].
    destruct (K Production) as (tp & pp & Rp & Pp); [simpl; auto |].
    destruct (K Development) as (td & dp & Rd & Pd); [simpl; auto |].
    destruct (K Testing) as (tt' & tp' & Rt & Pt); [simpl; auto 6 |].
    eexists. exact (deduplicate_run w _ _ _ _ _ _ _ _ Rb Pb Rp Pp Rd Pd Rt Pt).
Qed.

(** X11: when the file to read at some step does not exist and the files
    of the earlier steps parse, the pass raises [FileNotFoundError] for
    that file: the files of the earlier steps have been opened and
    rewritten, and neither the missing file nor any later one is
    created or written. *)
Theorem missing_file_aborts_pass (w : World Ext) (step : ReqFile) :
  In step [Base; Production; Development; Testing] ->
  read_file step (disk w) = None ->
  (forall f, In f (steps_before step) -> mapping_of f (disk w) <> None) ->
  exists w',
    deduplicate_requirements root w = (w', inl (FileNotFoundError step)) /\
    trace w' =
      trace w
      ++ flat_map (fun f => [EvOpen f; EvWrite f]) (steps_before step) /\
    (forall f, In f (steps_before step) ->
       read_file f (disk w') = rewritten (disk w) f /\
       rewritten (disk w) f <> None) /\
    (forall f, ~ In f (steps_before step) ->
       read_file f (disk w') = read_file f (disk w)) /\
    outside w' = outside w.
Proof.
  intros Hstep Hr Hbefore.
  assert (M : forall f, In f (steps_before step) ->
                exists t pk, read_file f (disk w) = Some t /\
                  parse_text t = inr pk /\ mapping_of f (disk w) = Some pk).
  { intros f Hf. apply mapping_of_Some. now apply Hbefore. }
  unfold deduplicate_requirements.
  destruct step; cbn [steps_before] in *.
  - run_parse_missing Hr. exists w. split; [reflexivity |].
    split; [simpl; now rewrite app_nil_r |]. split; [intros f [] |].
    split; reflexivity.
  - destruct (M Base) as (tb & bp & Rb & Pb & Mb); [simpl; auto |].
    run_parse Rb Pb. run_write. run_parse_missing Hr.
    eexists. split; [reflexivity |].
    split; [cbn; now rewrite <- !app_assoc |].
    split; [| split; [| reflexivity]].
    + intros f [<- | []]. unfold rewritten. rewrite Mb.
      split; [reflexivity | discriminate].
    + intros f Hf. destruct f; try reflexivity. exfalso. apply Hf. now left.
  - destruct (M Base) as (tb & bp & Rb & Pb & Mb); [simpl; auto |].
    destruct (M Production) as (tp & pp & Rp & Pp & Mp); [simpl; auto |].
    run_parse Rb Pb. run_write. run_parse Rp Pp. run_write.
    run_parse_missing Hr.
    eexists. split; [reflexivity |].
    split; [cbn; now rewrite <- !app_assoc |].
    split; [| split; [| reflexivity]].
    + intros f [<- | [<- | []]]; unfold rewritten; rewrite ?Mb, ?Mp;
        (split; [reflexivity | discriminate]).
    + intros f Hf. destruct f; try reflexivity; exfalso; apply Hf;
        simpl; auto.
  - destruct (M Base) as (tb & bp & Rb & Pb & Mb); [simpl; auto |].
    destruct (M Production) as (tp & pp & Rp & Pp & Mp); [simpl; auto |].
    destruct (M Development) as (td & dp & Rd & Pd & Md); [simpl; auto |].
    run_parse Rb Pb. run_write. run_parse Rp Pp. run_write.
    run_parse Rd Pd. run_write. run_parse_missing Hr.
    eexists. split; [reflexivity |].
    split; [cbn; now rewrite <- !app_assoc |].
    split; [| split; [| reflexivity]].
    + intros f [<- | [<- | [<- | []]]]; unfold rewritten;
        rewrite ?Mb, ?Mp, ?Md; (split; [reflexivity | discriminate]).
    + intros f Hf. destruct f; try reflexivity; exfalso; apply Hf;
        simpl; auto.
  - exfalso. simpl in Hstep. intuition discriminate.
Qed.

Lemma written_block (d : Packages) (P : string) (blk : list string)
    (parents : list ReqFile) :
  In (P, blk) d ->
  exists before after,
    requirements_text d parents =
    (requirements_text before parents ++ join blk
     ++ join (entry_lines after))%string.
Proof.
  intros H. apply in_split in H as (before & after & ->).
  exists before, after. apply requirements_text_split.
Qed.

(** X12: the derived files are compared with base (and testing with
    development) only, never with each other: an identifier line that is
    a key of the parsed production file and of the parsed development
    file, and not of base, keeps its production block in [production.txt]
    and its development block in [development.txt]; one that testing
    shares with production only keeps its block in [testing.txt] too. *)
Theorem shared_entries_stay_in_both (w w' : World Ext)
    (bp pp dp tp : Packages) (P : string) (blk : list string) :
  deduplicate_requirements root w = (w', inr tt) ->
  parsed_as Base (disk w) bp -> parsed_as Production (disk w) pp ->
  parsed_as Development (disk w) dp -> parsed_as Testing (disk w) tp ->
  In (P, blk) pp -> ~ In P (keys bp) ->
  (exists before after,
     read_file Production (disk w')
       = Some (requirements_text before [Base] ++ join blk
               ++ join (entry_lines after))%string) /\
  (forall blk', In (P, blk') dp ->
     exists before after,
       read_file Development (disk w')
         = Some (requirements_text before [Base] ++ join blk'
                 ++ join (entry_lines after))%string) /\
  (forall blk', In (P, blk') tp -> ~ In P (keys dp) ->
     exists before after,
       read_file Testing (disk w')
         = Some (requirements_text before [Development] ++ join blk'
                 ++ join (entry_lines after))%string).
Proof.
  intros H Hb Hp Hd Ht HP HPb.
  apply deduplicate_inv in H
    as (tb & tp0 & td & tt' & bp' & pp' & dp' & tp' & Rb & Pb & Rp & Pp & Rd
        & Pd & Rt & Pt & ->).
  assert (bp' = bp) as -> by (eapply parsed_as_fun; [red | ]; eauto).
  assert (pp' = pp) as -> by (eapply parsed_as_fun; [red | ]; eauto).
  assert (dp' = dp) as -> by (eapply parsed_as_fun; [red | ]; eauto).
  assert (tp' = tp) as -> by (eapply parsed_as_fun; [red | ]; eauto).
  split; [| split].
  - destruct (written_block (without [bp] pp) P blk [Base])
      as (before & after & E).
    { apply In_without. split; [exact HP |]. intros e [<- | []]. exact HPb. }
    exists before, after. rewrite <- E. reflexivity.
  - intros blk' HP'.
    destruct (written_block (without [bp] dp) P blk' [Base])
      as (before & after & E).
    { apply In_without. split; [exact HP' |]. intros e [<- | []].
      exact HPb. }
    exists before, after. rewrite <- E. reflexivity.
  - intros blk' HP' HPd.
    destruct (written_block (without [bp; dp] tp) P blk' [Development])
      as (before & after & E).
    { apply In_without. split; [exact HP' |].
      intros e [<- | [<- | []]]; assumption. }
    exists before, after. rewrite <- E. reflexivity.
Qed.

Lemma no_cr_requirements_text (pk : Packages) (parents : list ReqFile) :
  Forall (fun l => no_cr l = true) (entry_lines pk) ->
  no_cr (requirements_text pk parents) = true.
Proof.
  intros H. unfold requirements_text.
  change (map (fun p => ("-r " ++ file_name p ++ nl)%string) parents)
    with (map include_text parents).
  rewrite !no_cr_app, (no_cr_join _ (no_cr_include_lines parents)).
  now rewrite (no_cr_join _ H).
Qed.

Lemma Forall_entry_lines_without (P : string -> Prop)
    (excl : list Packages) (d : Packages) :
  Forall P (entry_lines d) -> Forall P (entry_lines (without excl d)).
Proof.
  induction d as [|[k b] d IH]; [trivial |].
  rewrite entry_lines_cons. intros [Hb Hd]%Forall_app.
  unfold without. cbn [filter].
  destruct (forallb _ excl); [| now apply IH].
  rewrite entry_lines_cons. apply Forall_app. split; [exact Hb | now apply IH].
Qed.

Lemma no_cr_parsed (text : string) (pk : Packages) :
  parse_text text = inr pk ->
  Forall (fun l => no_cr l = true) (entry_lines pk).
Proof.
  intros H. apply parse_text_inv in H as (cur & H & _).
  apply (parse_loop_Forall _ (file_lines text) [] pk None cur);
    [apply no_cr_file_lines | constructor | exact H].
Qed.

(** X15: after a pass that returns, none of the five files holds a
    carriage return: the files are read with every line ending turned
    into a line feed, and the header, the include lines and the blank line
    are written with line feeds. *)
Theorem rewritten_files_have_no_cr (w w' : World Ext) (f : ReqFile)
    (text : string) :
  deduplicate_requirements root w = (w', inr tt) ->
  read_file f (disk w') = Some text -> no_cr text = true.
Proof.
  intros H Hr.
  apply deduplicate_inv in H
    as (tb & tp & td & tt' & bp & pp & dp & tp' & Rb & Pb & Rp & Pp & Rd & Pd
        & Rt & Pt & ->).
  pose proof (no_cr_parsed _ _ Pb) as Fb.
  pose proof (no_cr_parsed _ _ Pp) as Fp.
  pose proof (no_cr_parsed _ _ Pd) as Fd.
  pose proof (no_cr_parsed _ _ Pt) as Ft.
  destruct f.
  - change (Some (requirements_text bp []) = Some text) in Hr.
    injection Hr as <-. now apply no_cr_requirements_text.
  - change (Some (requirements_text (without [bp] pp) [Base]) = Some text)
      in Hr.
    injection Hr as <-.
    now apply no_cr_requirements_text, Forall_entry_lines_without.
  - change (Some (requirements_text (without [bp] dp) [Base]) = Some text)
      in Hr.
    injection Hr as <-.
    now apply no_cr_requirements_text, Forall_entry_lines_without.
  - change (Some (requirements_text (without [bp; dp] tp') [Development])
            = Some text) in Hr.
    injection Hr as <-.
    now apply no_cr_requirements_text, Forall_entry_lines_without.
  - change (Some (requirements_text [] [Development; Production; Testing])
            = Some text) in Hr.
    injection Hr as <-. reflexivity.
Qed.

Lemma parse_requirements_cases (f : ReqFile) (W : World Ext) :
  (exists pk, parse_requirements f W = (opened f W, inr pk) /\
              mapping_of f (disk W) = Some pk) \/
  (exists W1 e, parse_requirements f W = (W1, inl e) /\
                raised_by f (disk W) e).
Proof.
  unfold mapping_of. destruct (read_file f (disk W)) as [text|] eqn:R.
  - destruct (parse_text_cases text) as [[Hi Hp] | [_ [pk Hp]]].
    + right. exists (opened f W), unexpected_indentation.
      split; [exact (parse_requirements_raises f W _ _ R Hp) |].
      right. split; [reflexivity | eauto].
    + left. exists pk. rewrite Hp.
      split; [exact (parse_requirements_ok f W _ _ R Hp) | reflexivity].
  - right. exists W, (FileNotFoundError f).
    split; [now apply parse_requirements_missing | left; now split].
Qed.

(** One reading step of the pass on the world [w0] it started from: the
    file parses and the pass goes on, or the pass stops with the error of
    this file. *)
Ltac step_cases H f w0 :=
  match type of H with
  | context [bind (parse_requirements f) ?k ?W] =>
      let E := fresh "E" in
      let C := fresh "C" in
      let M := fresh "M" in
      destruct (parse_requirements_cases f W)
        as [(?pk & E & M) | (?W1 & ?e0 & E & C)];
      [ rewrite (bind_inr (parse_requirements f) k W _ _ E) in H;
        run_write_in H;
        match type of M with
        | _ = ?r => change (mapping_of f (disk w0) = r) in M
        end
      | rewrite (bind_inl (parse_requirements f) k W _ _ E) in H;
        injection H as _ <-; exists f;
        split; [simpl; auto 6 |];
        split; [exact C |];
        intros g Hg; simpl in Hg;
        repeat (destruct Hg as [<- | Hg]; [congruence |]);
        contradiction ]
  end.

(** The pass raises at the first file, in the order of reading, that is
    missing or starts with an indented line. *)
Lemma pass_raises_cases (w w' : World Ext) (e : exn) :
  deduplicate_requirements root w = (w', inl e) ->
  exists f, In f [Base; Production; Development; Testing] /\
            raised_by f (disk w) e /\
            forall g, In g (steps_before f) ->
                      mapping_of g (disk w) <> None.
Proof.
  unfold deduplicate_requirements. intros H.
  step_cases H Base w. step_cases H Production w.
  step_cases H Development w. step_cases H Testing w.
  rewrite write_requirements_run in H. discriminate H.
Qed.

(** X16: the errors of the pass name their cause.  When the pass raises
    the "unexpected indentation" error, one of the four files it reads has
    a first content line that begins with a space; when it raises
    [FileNotFoundError] for one of the requirement files, that file is one
    of the four and does not exist; in both cases the files read before it
    parse.  The pass never raises the [ValueError] of [relative_to]: every
    path the script makes relative lies below the directory it is made
    relative to. *)
Theorem pass_errors_name_their_cause (w w' : World Ext) (e : exn) :
  deduplicate_requirements root w = (w', inl e) ->
  (e = unexpected_indentation ->
   exists f text,
     In f [Base; Production; Development; Testing] /\
     read_file f (disk w) = Some text /\ indented_start text /\
     forall g, In g (steps_before f) -> mapping_of g (disk w) <> None) /\
  (forall f, e = FileNotFoundError f ->
     In f [Base; Production; Development; Testing] /\
     read_file f (disk w) = None /\
     forall g, In g (steps_before f) -> mapping_of g (disk w) <> None) /\
  e <> not_in_subpath.
Proof.
  intros H.
  destruct (pass_raises_cases w w' e H)
    as (f & Hf & [[-> Hr] | [-> (text & Hr & Hi)]] & Hg).
  - split; [discriminate |]. split; [| discriminate].
    intros f' [= <-]. auto.
  - split; [intros _; exists f, text; auto |].
    split; [discriminate | discriminate].
Qed.

End ScriptProofs.

(** ** [write_requirements] on any paths *)










(** ** What the parser does with each kind of line *)





(** ** Blocks as occurrences of identifier lines *)

Lemma block_lines_dict_append (k k' l : string) (d : Packages) :
  block_lines k (dict_append k' l d) =
  if String.eqb k' k then block_lines k d ++ [l] else block_lines k d.
Proof.
  unfold block_lines. destruct (String.eqb_spec k' k) as [-> | N].
  - rewrite lookup_dict_append_same. now destruct (lookup k d).
  - rewrite lookup_dict_append_other; [reflexivity | congruence].
Qed.

Lemma parse_loop_blocks (lines : list string) (pk pk' : Packages)
    (cp : string) (cur' : option string) (k : string) :
  Forall (fun l => truthy l = true) lines -> truthy cp = true ->
  parse_loop lines pk (Some cp) = inr (pk', cur') ->
  block_lines k pk' =
  block_lines k pk ++ occurrence_lines k (Some cp) lines.
Proof.
  intros F. revert pk cp.
  induction F as [|l lines Hl _ IH]; intros pk cp Ht.
  - simpl. intros [= <- _]. now rewrite app_nil_r.
  - cbn [occurrence_lines]. destruct (startswith l " ") eqn:E.
    + rewrite parse_loop_indent by assumption. intros H.
      rewrite (IH _ _ Ht H), block_lines_dict_append.
      destruct (String.eqb cp k); [now rewrite <- app_assoc | reflexivity].
    + rewrite parse_loop_key; [| now left | exact E]. intros H.
      rewrite (IH _ _ Hl H), block_lines_dict_append.
      destruct (String.eqb l k); [now rewrite <- app_assoc | reflexivity].
Qed.

Lemma parse_text_blocks_occurrences (text : string) (pk : Packages)
    (k : string) :
  parse_text text = inr pk ->
  block_lines k pk = occurrence_lines k None (content_lines (file_lines text)).
Proof.
  intros H. apply parse_text_inv in H as (cur & H & _).
  rewrite parse_loop_content_lines in H.
  destruct (content_lines_suffix (file_lines text)) as (sk & E & _).
  pose proof (file_lines_truthy text) as F. rewrite E in F.
  apply Forall_app in F as [_ F].
  destruct (content_lines (file_lines text)) as [|l rest] eqn:C.
  - simpl in H. now injection H as <- _.
  - apply content_lines_head in C. inversion F as [|? ? Hl Fr]; subst.
    cbn [occurrence_lines]. destruct (startswith l " ") eqn:S.
    + simpl in H. rewrite C, S in H. discriminate H.
    + rewrite parse_loop_key in H; [| now right | exact S].
      rewrite (parse_loop_blocks _ _ _ _ _ k Fr Hl H).
      unfold block_lines at 1. simpl.
      destruct (String.eqb_spec k l) as [-> | N].
      * now rewrite String.eqb_refl.
      * destruct (String.eqb_spec l k); [congruence | reflexivity].
Qed.

Lemma count_occurrence_lines (k : string) (cur : option string)
    (lines : list string) :
  startswith k " " = false ->
  count k (occurrence_lines k cur lines) = count k lines.
Proof.
  intros Hk. unfold count. revert cur.
  induction lines as [|l lines IH]; intros cur; [reflexivity |].
  cbn [occurrence_lines count_occ].
  destruct (startswith l " ") eqn:E.
  - destruct (string_dec l k) as [-> | N]; [congruence |].
    destruct cur as [c|]; [| apply IH].
    destruct (String.eqb c k); [| apply IH].
    cbn [count_occ]. destruct (string_dec l k); [contradiction | apply IH].
  - destruct (String.eqb_spec l k) as [-> | N].
    + cbn [count_occ]. destruct (string_dec k k); [| contradiction].
      now rewrite IH.
    + destruct (string_dec l k); [contradiction | apply IH].
Qed.

(** C10: the parser returns one entry per distinct identifier line; its
    block is made of the lines of all the occurrences of that identifier
    line, in file order, so the identifier line is in the block once per
    occurrence; every block is non-empty and starts with its key. *)
Theorem repeated_identifier_one_entry (text : string) (pk : Packages) :
  parse_text text = inr pk ->
  NoDup (keys pk) /\
  (forall k,
     block_lines k pk
       = occurrence_lines k None (content_lines (file_lines text))) /\
  forall k blk, In (k, blk) pk ->
    lookup k pk = Some blk /\
    blk = occurrence_lines k None (content_lines (file_lines text)) /\
    (exists tl, blk = k :: tl) /\
    count k blk = count k (content_lines (file_lines text)).
Proof.
  intros H. destruct (parse_text_blocks _ _ H) as [ND F].
  split; [exact ND |].
  split; [intros k; now apply parse_text_blocks_occurrences |].
  intros k blk HI.
  pose proof (NoDup_lookup _ _ _ ND HI) as Hl.
  pose proof (parse_text_blocks_occurrences text pk k H) as Hb.
  unfold block_lines in Hb. rewrite Hl in Hb.
  rewrite Forall_forall in F. destruct (F _ HI) as (Hs & _ & tl & E & _).
  repeat split; [exact Hl | exact Hb | eauto |].
  rewrite Hb. now apply count_occurrence_lines.
Qed.

(** ** The resolver commands *)

Section MainProofs.

Variable Ext : Type.
Variable spawn : list string -> Ext * FS -> Z * (Ext * FS).
Variable root : Path.

(** The loop over the commands stops at the first one whose exit status is
    not zero. *)
Lemma for_each_aborts (cmds : list (list string)) (i : nat) (w : World Ext) :
  i < List.length cmds ->
  (forall j, j < i -> exit_status spawn cmds j (outside w, disk w) = 0%Z) ->
  exit_status spawn cmds i (outside w, disk w) <> 0%Z ->
  for_each cmds (subprocess_run spawn) w =
  (let s := after_commands spawn (firstn (S i) cmds) (outside w, disk w) in
   mkWorld (snd s) (fst s) (trace w ++ map EvSpawn (firstn (S i) cmds)),
   inl (CalledProcessError
          (exit_status spawn cmds i (outside w, disk w)) (nth i cmds []))).
Proof.
  revert i w. induction cmds as [|c cs IH]; intros i w Hi Hok Hbad.
  - simpl in Hi. lia.
  - cbn [for_each]. unfold bind at 1, subprocess_run at 1.
    destruct i as [|i].
    + unfold exit_status in *. cbn [firstn nth after_commands fold_left] in *.
      destruct (spawn c (outside w, disk w)) as [rc [e d]]. cbn [fst snd] in *.
      apply Z.eqb_neq in Hbad. rewrite Hbad. reflexivity.
    + pose proof (Hok 0 (Nat.lt_0_succ i)) as H0.
      assert (Hok' : forall j, j < i ->
        exit_status spawn cs j (snd (spawn c (outside w, disk w))) = 0%Z).
      { intros j Hj. apply (Hok (S j)). lia. }
      unfold exit_status in H0, Hbad, Hok' |- *.
      cbn [firstn nth after_commands fold_left] in H0, Hbad, Hok' |- *.
      change (fold_left (fun s cmd => snd (spawn cmd s)))
        with (after_commands spawn) in *.
      destruct (spawn c (outside w, disk w)) as [rc [e d]].
      cbn [fst snd] in *. subst rc. cbn [Z.eqb].
      rewrite (IH i (mkWorld d e (trace w ++ [EvSpawn c]))).
      * cbn [outside disk trace map]. unfold exit_status.
        now rewrite <- app_assoc.
      * simpl in Hi. lia.
      * exact Hok'.
      * exact Hbad.
Qed.

(** C8: when the command at position [i] of the six is the first to exit
    with a status other than zero, [main] raises [CalledProcessError] with
    that status and that command; the process has spawned the commands up
    to [i], each once and nothing after, it has opened and written no
    file and printed nothing, and the surroundings are as command [i]
    left them. *)
Theorem failing_command_aborts_run (w : World Ext) (i : nat) :
  i < 6 ->
  (forall j, j < i ->
     exit_status spawn (commands root) j (outside w, disk w) = 0%Z) ->
  exit_status spawn (commands root) i (outside w, disk w) <> 0%Z ->
  List.length (commands root) = 6 /\
  main spawn root w =
  (let s := after_commands spawn (firstn (S i) (commands root))
              (outside w, disk w) in
   mkWorld (snd s) (fst s)
     (trace w ++ map EvSpawn (firstn (S i) (commands root))),
   inl (CalledProcessError
          (exit_status spawn (commands root) i (outside w, disk w))
          (nth i (commands root) []))).
Proof.
  intros Hi Hok Hbad. split; [reflexivity |].
  unfold main, run_uv_commands.
  apply bind_inl. now apply for_each_aborts.
Qed.

(** *** Further properties of the commands and of [main] *)

Lemma for_each_runs_all (cmds : list (list string)) (w : World Ext) :
  (forall j, j < List.length cmds ->
     exit_status spawn cmds j (outside w, disk w) = 0%Z) ->
  for_each cmds (subprocess_run spawn) w = (spawned spawn cmds w, inr tt).
Proof.
  revert w. induction cmds as [|c cs IH]; intros w Hok.
  - unfold spawned. simpl. rewrite app_nil_r. now destruct w.
  - cbn [for_each]. unfold bind at 1, subprocess_run at 1.
    pose proof (Hok 0 (Nat.lt_0_succ _)) as H0.
    assert (Hok' : forall j, j < List.length cs ->
      exit_status spawn cs j (snd (spawn c (outside w, disk w))) = 0%Z).
    { intros j Hj. apply (Hok (S j)). simpl. lia. }
    unfold spawned, exit_status in *.
    cbn [firstn nth after_commands fold_left map] in *.
    change (fold_left (fun s cmd => snd (spawn cmd s)))
      with (after_commands spawn) in *.
    destruct (spawn c (outside w, disk w)) as [rc [e d]].
    cbn [fst snd] in *. subst rc. cbn [Z.eqb].
    rewrite (IH (mkWorld d e (trace w ++ [EvSpawn c])) Hok').
    cbn [outside disk trace]. now rewrite <- app_assoc.
Qed.

Lemma for_each_returns_inv (cmds : list (list string)) (w w' : World Ext) :
  for_each cmds (subprocess_run spawn) w = (w', inr tt) ->
  forall j, j < List.length cmds ->
    exit_status spawn cmds j (outside w, disk w) = 0%Z.
Proof.
  revert w. induction cmds as [|c cs IH]; intros w H j Hj;
    [simpl in Hj; lia |].
  cbn [for_each] in H. unfold bind at 1, subprocess_run at 1 in H.
  unfold exit_status in *.
  destruct (spawn c (outside w, disk w)) as [rc [e d]] eqn:Sp.
  destruct (Z.eqb_spec rc 0) as [-> | N]; [| discriminate H].
  destruct j as [|j].
  - cbn [firstn nth after_commands fold_left]. now rewrite Sp.
  - cbn [firstn nth after_commands fold_left]. rewrite Sp. cbn [snd].
    apply (IH _ H j). simpl in Hj. lia.
Qed.

(** X13: [run_uv_commands] returns exactly when each of the six commands
    exits with status zero when its turn comes; it has then spawned the
    six commands, once each and in the order of the table, and the
    surroundings are as the last command left them. *)
Theorem run_uv_commands_returns_iff (w w' : World Ext) :
  run_uv_commands spawn root w = (w', inr tt) <->
  w' = spawned spawn (commands root) w /\
  forall j, j < 6 ->
    exit_status spawn (commands root) j (outside w, disk w) = 0%Z.
Proof.
  unfold run_uv_commands. split.
  - intros H.
    pose proof (for_each_returns_inv (commands root) w w' H) as Hok.
    split; [| exact Hok].
    rewrite (for_each_runs_all (commands root) w Hok) in H. congruence.
  - intros [-> Hok]. now apply for_each_runs_all.
Qed.

Lemma quiet_ret {A} (a : A) : quiet (ret (Ext:=Ext) a).
Proof.
  intros w w' r [= <- <-]. exists []. split; [now rewrite app_nil_r | auto].
Qed.

Lemma quiet_raise {A} (e : exn) : quiet (raise (Ext:=Ext) (A:=A) e).
Proof.
  intros w w' r [= <- <-]. exists []. split; [now rewrite app_nil_r | auto].
Qed.

Lemma quiet_bind {A B} (m : IO Ext A) (k : A -> IO Ext B) :
  quiet m -> (forall a, quiet (k a)) -> quiet (bind m k).
Proof.
  intros Hm Hk w w' r. unfold bind.
  destruct (m w) as [w1 [e | a]] eqn:M.
  - intros [= <- <-]. exact (Hm _ _ _ M).
  - intros K. destruct (Hm _ _ _ M) as (ev1 & E1 & N1).
    destruct (Hk a _ _ _ K) as (ev2 & E2 & N2).
    exists (ev1 ++ ev2). split; [now rewrite E2, E1, app_assoc |].
    intros line [H | H]%in_app_iff; [exact (N1 line H) | exact (N2 line H)].
Qed.

Lemma quiet_one_event {A} (m : IO Ext A) (ev : event) :
  (forall line, ev <> EvPrint line) ->
  (forall w w' r, m w = (w', r) ->
     trace w' = trace w \/ trace w' = trace w ++ [ev]) ->
  quiet m.
Proof.
  intros Hev H w w' r E. destruct (H w w' r E) as [-> | ->].
  - exists []. split; [now rewrite app_nil_r | auto].
  - exists [ev]. split; [reflexivity |].
    intros line [K | []]. exact (Hev line K).
Qed.

Lemma quiet_open_read (f : ReqFile) : quiet (open_read (Ext:=Ext) f).
Proof.
  apply (quiet_one_event _ (EvOpen f)); [discriminate |].
  intros w w' r. unfold open_read.
  destruct (read_file f (disk w)); intros [= <- _]; auto.
Qed.

Lemma quiet_write_text (f : ReqFile) (text : string) :
  quiet (write_text (Ext:=Ext) f text).
Proof.
  apply (quiet_one_event _ (EvWrite f)); [discriminate |].
  intros w w' r. unfold write_text. intros [= <- _]. auto.
Qed.

Lemma quiet_subprocess_run (cmd : list string) :
  quiet (subprocess_run spawn cmd).
Proof.
  apply (quiet_one_event _ (EvSpawn cmd)); [discriminate |].
  intros w w' r. unfold subprocess_run.
  destruct (spawn cmd (outside w, disk w)) as [rc [e d]].
  destruct (Z.eqb rc 0); intros [= <- _]; auto.
Qed.

Lemma quiet_for_each {A} (xs : list A) (body : A -> IO Ext unit) :
  (forall x, quiet (body x)) -> quiet (for_each xs body).
Proof.
  intros H. induction xs as [|x xs IH]; [apply quiet_ret |].
  cbn [for_each]. apply quiet_bind; [apply H | intros _; exact IH].
Qed.

Lemma quiet_parse_requirements (f : ReqFile) :
  quiet (parse_requirements (Ext:=Ext) f).
Proof.
  unfold parse_requirements. apply quiet_bind; [apply quiet_open_read |].
  intros text. destruct (parse_text text);
    [apply quiet_raise | apply quiet_ret].
Qed.

Lemma quiet_write_requirements (out : ReqFile) (pk : Packages)
    (parents : list ReqFile) :
  quiet (write_requirements (Ext:=Ext) root out pk parents).
Proof.
  unfold write_requirements.
  destruct (relative_to (SCRIPT root) (PROJECT_ROOT root));
    [| apply quiet_raise].
  destruct (relative_parents root (parent (path_of root out)) parents);
    [apply quiet_write_text | apply quiet_raise].
Qed.

Lemma quiet_deduplicate_requirements :
  quiet (deduplicate_requirements (Ext:=Ext) root).
Proof.
  unfold deduplicate_requirements.
  repeat first
    [ apply quiet_write_requirements
    | apply quiet_bind;
      [first [apply quiet_parse_requirements
             | apply quiet_write_requirements] | intros ?] ].
Qed.

Lemma quiet_run_uv_commands : quiet (run_uv_commands spawn root).
Proof. apply quiet_for_each, quiet_subprocess_run. Qed.

(** X14: [main] prints its completion line exactly when it returns, and
    then as the last thing it does: if [main] returns, the events it added
    to the trace end with the print of that line and hold no other print;
    if [main] raises, from the commands or from the pass, it has printed
    nothing. *)
Theorem main_prints_only_on_success (w w' : World Ext) (r : exn + unit) :
  main spawn root w = (w', r) ->
  exists events,
    trace w' = trace w ++ events /\
    match r with
    | inr _ =>
        exists before,
          events = before ++ [EvPrint completion_message] /\
          forall line, ~ In (EvPrint line) before
    | inl _ => forall line, ~ In (EvPrint line) events
    end.
Proof.
  unfold main, bind.
  destruct (run_uv_commands spawn root w) as [w1 [e | []]] eqn:R.
  - intros [= <- <-].
    destruct (quiet_run_uv_commands _ _ _ R) as (ev & E & N). eauto.
  - destruct (quiet_run_uv_commands _ _ _ R) as (ev1 & E1 & N1).
    destruct (deduplicate_requirements root w1) as [w2 [e | []]] eqn:D;
      destruct (quiet_deduplicate_requirements _ _ _ D) as (ev2 & E2 & N2);
      assert (N12 : forall line, ~ In (EvPrint line) (ev1 ++ ev2))
        by (intros line [H | H]%in_app_iff;
            [exact (N1 line H) | exact (N2 line H)]).
    + intros [= <- <-]. exists (ev1 ++ ev2).
      split; [now rewrite E2, E1, app_assoc | exact N12].
    + unfold print. intros [= <- <-].
      exists ((ev1 ++ ev2) ++ [EvPrint completion_message]). split.
      * cbn [trace]. now rewrite E2, E1, !app_assoc.
      * exists (ev1 ++ ev2). split; [reflexivity | exact N12].
Qed.

Lemma for_each_raises_inv (cmds : list (list string)) (w w' : World Ext)
    (e : exn) :
  for_each cmds (subprocess_run spawn) w = (w', inl e) ->
  exists i, i < List.length cmds /\
    exit_status spawn cmds i (outside w, disk w) <> 0%Z /\
    (forall j, j < i ->
       exit_status spawn cmds j (outside w, disk w) = 0%Z) /\
    e = CalledProcessError
          (exit_status spawn cmds i (outside w, disk w)) (nth i cmds []).
Proof.
  revert w. induction cmds as [|c cs IH]; intros w H; [discriminate H |].
  cbn [for_each] in H. unfold bind at 1, subprocess_run at 1 in H.
  unfold exit_status in *.
  destruct (spawn c (outside w, disk w)) as [rc [e0 d]] eqn:Sp.
  destruct (Z.eqb_spec rc 0) as [-> | N].
  - destruct (IH _ H) as (i & Hi & Hbad & Hok & ->).
    cbn [outside disk] in *. exists (S i).
    cbn [firstn nth after_commands fold_left]. rewrite Sp. cbn [snd].
    split; [simpl; lia |]. split; [exact Hbad |]. split; [| reflexivity].
    intros [|j] Hj.
    + cbn [firstn nth after_commands fold_left]. now rewrite Sp.
    + cbn [firstn nth after_commands fold_left]. rewrite Sp. cbn [snd].
      apply Hok. lia.
  - injection H as _ <-. exists 0.
    cbn [firstn nth after_commands fold_left]. rewrite Sp. cbn [fst].
    split; [simpl; lia |]. split; [exact N |].
    split; [intros j Hj; lia | reflexivity].
Qed.

(** X17: the errors of [main] name their cause.  When [main] raises
    [CalledProcessError], the error carries one of the six commands and
    its exit status, which is not zero; the commands before it exited with
    status zero and nothing was run after it.  When [main] raises the
    "unexpected indentation" error or [FileNotFoundError] for a
    requirement file, the six commands have all exited with status zero
    and the error is the one of the pass on the files as they left
    them. *)
Theorem main_errors_name_their_cause (w w' : World Ext) (e : exn) :
  main spawn root w = (w', inl e) ->
  (forall rc cmd, e = CalledProcessError rc cmd ->
     exists i,
       i < 6 /\ cmd = nth i (commands root) [] /\
       rc = exit_status spawn (commands root) i (outside w, disk w) /\
       rc <> 0%Z /\
       (forall j, j < i ->
          exit_status spawn (commands root) j (outside w, disk w) = 0%Z) /\
       w' = spawned spawn (firstn (S i) (commands root)) w) /\
  (e = unexpected_indentation \/ (exists f, e = FileNotFoundError f) ->
   (forall j, j < 6 ->
      exit_status spawn (commands root) j (outside w, disk w) = 0%Z) /\
   exists f,
     In f [Base; Production; Development; Testing] /\
     raised_by f (disk (spawned spawn (commands root) w)) e /\
     forall g, In g (steps_before f) ->
       mapping_of g (disk (spawned spawn (commands root) w)) <> None).
Proof.
  unfold main, bind.
  destruct (run_uv_commands spawn root w) as [w1 [e1 | []]] eqn:R;
    unfold run_uv_commands in R.
  - intros [= <- <-].
    destruct (for_each_raises_inv _ _ _ _ R) as (i & Hi & Hbad & Hok & ->).
    split.
    + intros rc cmd [= <- <-]. exists i.
      rewrite (for_each_aborts _ _ _ Hi Hok Hbad) in R.
      injection R as <-. repeat split; assumption.
    + intros [H | [f H]]; discriminate H.
  - pose proof (for_each_returns_inv _ _ _ R) as Hok.
    rewrite (for_each_runs_all _ _ Hok) in R. injection R as <-.
    destruct (deduplicate_requirements root _) as [w2 [e2 | []]] eqn:D;
      [| unfold print; discriminate].
    intros [= <- <-].
    destruct (pass_raises_cases _ _ _ _ _ D) as (f & Hf & Hr & Hg).
    split.
    + intros rc cmd ->.
      destruct Hr as [[H _] | [H _]]; discriminate H.
    + intros _. split; [exact Hok |]. exists f. auto.
Qed.

End MainProofs.

(** ** Evaluations on the sample runs *)

Example strip_sample : strip ("  a b " ++ nl)%string = "a b"%string.
Proof. reflexivity. Qed.

Example blank_or_comment_sample :
  blank_or_comment nl = true /\
  blank_or_comment ("   # via django" ++ nl)%string = true /\
  blank_or_comment ("foo==1.0" ++ nl)%string = false.
Proof. repeat split. Qed.

Example file_lines_sample :
  file_lines ("a" ++ String CR nl ++ "b" ++ String CR "c")%string
  = [("a" ++ nl)%string; ("b" ++ nl)%string; "c"%string].
Proof. reflexivity. Qed.

Example parse_repeated_text : parse_text repeated_text = inr repeated_mapping.
Proof. reflexivity. Qed.

Example write_testing_sample :
  read_file Testing
    (disk (fst (write_requirements sample_root Testing
                  [(("t==1" ++ nl)%string, [("t==1" ++ nl)%string])]
                  [Development] minimal_world)))
  = Some ("# This file was autogenerated via dev/make_requirements.py" ++ nl
          ++ "-r development.txt" ++ nl ++ nl ++ "t==1" ++ nl)%string.
Proof. reflexivity. Qed.

(** The first run on [minimal_world]: base keeps its entry under the new
    header, production keeps only what base does not pin. *)
Example minimal_done_files :
  read_file Base (disk minimal_done)
    = Some ("# This file was autogenerated via dev/make_requirements.py"
            ++ nl ++ nl ++ "foo==1.0" ++ nl)%string /\
  read_file Production (disk minimal_done)
    = Some ("# This file was autogenerated via dev/make_requirements.py"
            ++ nl ++ "-r base.txt" ++ nl ++ nl ++ "bar==2.0" ++ nl)%string /\
  read_file Development (disk minimal_done)
    = Some ("# This file was autogenerated via dev/make_requirements.py"
            ++ nl ++ "-r base.txt" ++ nl ++ nl ++ "dev==3.0" ++ nl
            ++ "    # via cvat (pyproject.toml)" ++ nl)%string /\
  read_file Testing (disk minimal_done)
    = Some ("# This file was autogenerated via dev/make_requirements.py"
            ++ nl ++ "-r development.txt" ++ nl ++ nl ++ "test==4.0"
            ++ nl)%string /\
  trace minimal_done
    = [EvOpen Base; EvWrite Base; EvOpen Production; EvWrite Production;
       EvOpen Development; EvWrite Development; EvOpen Testing;
       EvWrite Testing; EvWrite All].
Proof. repeat split. Qed.

Lemma all_file_is_aggregator_witness :
  read_file All (disk minimal_done)
    = Some (requirements_text [] [Development; Production; Testing]) /\
  file_lines (requirements_text [] [Development; Production; Testing]) =
    [ ("# This file was autogenerated via dev/make_requirements.py"
       ++ nl)%string;
      ("-r development.txt" ++ nl)%string;
      ("-r production.txt" ++ nl)%string;
      ("-r testing.txt" ++ nl)%string;
      nl ] /\
  exists events,
    trace minimal_done = trace minimal_world ++ events /\
    ~ In (EvOpen All) events.
Proof.
  apply (all_file_is_aggregator unit sample_root minimal_world minimal_done).
  vm_compute. reflexivity.
Defined.

Lemma base_keys_left_out_witness :
  exists bp pp dp tp pu du tu,
    parsed_as Base (disk minimal_world) bp /\
    parsed_as Production (disk minimal_world) pp /\
    parsed_as Development (disk minimal_world) dp /\
    parsed_as Testing (disk minimal_world) tp /\
    read_file Production (disk minimal_done)
      = Some (requirements_text pu [Base]) /\
    read_file Development (disk minimal_done)
      = Some (requirements_text du [Base]) /\
    read_file Testing (disk minimal_done)
      = Some (requirements_text tu [Development]) /\
    (forall k b, In (k, b) pu <-> In (k, b) pp /\ ~ In k (keys bp)) /\
    (forall k b, In (k, b) du <-> In (k, b) dp /\ ~ In k (keys bp)) /\
    (forall k b, In (k, b) tu <->
                 In (k, b) tp /\ ~ In k (keys bp) /\ ~ In k (keys dp)) /\
    forall P, In P (keys bp) ->
      ~ In P (keys pu) /\ ~ In P (keys du) /\ ~ In P (keys tu) /\
      ~ In P (entry_lines pu) /\ ~ In P (entry_lines du) /\
      ~ In P (entry_lines tu).
Proof.
  apply (base_keys_left_out unit sample_root minimal_world minimal_done).
  vm_compute. reflexivity.
Defined.

Lemma second_run_keeps_base_and_all_witness :
  exists w2,
    deduplicate_requirements sample_root minimal_done = (w2, inr tt) /\
    read_file Base (disk w2) = read_file Base (disk minimal_done) /\
    read_file All (disk w2) = read_file All (disk minimal_done) /\
    exists bp bp2,
      parsed_as Base (disk minimal_world) bp /\
      parsed_as Base (disk minimal_done) bp2 /\
      read_file Base (disk minimal_done) = Some (requirements_text bp []) /\
      join (entry_lines bp2) = join (entry_lines bp).
Proof.
  apply (second_run_keeps_base_and_all unit sample_root minimal_world
           minimal_done).
  vm_compute. reflexivity.
Defined.

(** C2 (as stated) fails: the second run reads the include line and the
    blank line that the first run wrote to [production.txt] as entries, and
    writes them a second time. *)
Lemma second_run_changes_production :
  deduplicate_requirements sample_root minimal_world
    = (minimal_done, inr tt) /\
  deduplicate_requirements sample_root minimal_done
    = (minimal_done_twice, inr tt) /\
  read_file Production (disk minimal_done)
    = Some ("# This file was autogenerated via dev/make_requirements.py"
            ++ nl ++ "-r base.txt" ++ nl ++ nl ++ "bar==2.0" ++ nl)%string /\
  read_file Production (disk minimal_done_twice)
    = Some ("# This file was autogenerated via dev/make_requirements.py"
            ++ nl ++ "-r base.txt" ++ nl ++ nl ++ "-r base.txt" ++ nl ++ nl
            ++ "bar==2.0" ++ nl)%string /\
  read_file Production (disk minimal_done_twice)
    <> read_file Production (disk minimal_done).
Proof.
  repeat split; try (vm_compute; reflexivity).
  vm_compute. discriminate.
Qed.

Lemma indented_start_aborts_pass_witness :
  parse_text ("    --hash=sha256:abc" ++ nl ++ "dev==3.0" ++ nl)
    = inl unexpected_indentation /\
  exists w',
    deduplicate_requirements sample_root indented_world
      = (w', inl unexpected_indentation) /\
    trace w' =
      trace indented_world
      ++ flat_map (fun f => [EvOpen f; EvWrite f]) [Base; Production]
      ++ [EvOpen Development] /\
    (forall f, In f [Base; Production] ->
       read_file f (disk w') = rewritten (disk indented_world) f /\
       rewritten (disk indented_world) f <> None) /\
    (forall f, ~ In f [Base; Production] ->
       read_file f (disk w') = read_file f (disk indented_world)) /\
    outside w' = outside indented_world.
Proof.
  apply (indented_start_aborts_pass unit sample_root indented_world
           Development ("    --hash=sha256:abc" ++ nl ++ "dev==3.0" ++ nl)).
  - simpl. auto.
  - reflexivity.
  - exists ("    --hash=sha256:abc" ++ nl)%string. split; reflexivity.
  - intros f [<- | [<- | []]]; vm_compute; discriminate.
Defined.

(** C3 (as stated) fails: a first content line that begins with a tab has
    leading whitespace, yet the parser takes it for an identifier line and
    the run returns. *)
Lemma tab_start_is_parsed :
  read_file Base (disk tab_world) = Some (String TAB "foo==1.0" ++ nl)%string /\
  whitespace_start (String TAB "foo==1.0" ++ nl) /\
  parse_text (String TAB "foo==1.0" ++ nl)
    = inr [((String TAB "foo==1.0" ++ nl)%string,
            [(String TAB "foo==1.0" ++ nl)%string])] /\
  snd (deduplicate_requirements sample_root tab_world) = inr tt.
Proof.
  split; [reflexivity |]. split; [| split; reflexivity].
  exists (String TAB "foo==1.0" ++ nl)%string. split; reflexivity.
Qed.

Lemma development_keys_left_out_of_testing_witness :
  (exists before after,
     read_file Development (disk minimal_done)
       = Some (requirements_text before [Base] ++ join [dev_line; dev_note]
               ++ join (entry_lines after))%string) /\
  exists tu,
    read_file Testing (disk minimal_done)
      = Some (requirements_text tu [Development]) /\
    (forall k b, In (k, b) tu <->
       In (k, b) [(foo_line, [foo_line]); (dev_line, [dev_line]);
                  (("test==4.0" ++ nl)%string, [("test==4.0" ++ nl)%string])]
       /\ ~ In k (keys [(foo_line, [foo_line])])
       /\ ~ In k (keys [(foo_line, [foo_line; foo_note]);
                        (dev_line, [dev_line; dev_note])])) /\
    ~ In dev_line (keys tu) /\ ~ In dev_line (entry_lines tu).
Proof.
  apply (development_keys_left_out_of_testing unit sample_root minimal_world
           minimal_done).
  - vm_compute. reflexivity.
  - eexists. split; [reflexivity | vm_compute; reflexivity].
  - eexists. split; [reflexivity | vm_compute; reflexivity].
  - eexists. split; [reflexivity | vm_compute; reflexivity].
  - simpl. auto.
  - simpl. intros [H | []]. vm_compute in H. discriminate H.
Defined.


Lemma failing_command_aborts_run_witness :
  List.length (commands sample_root) = 6 /\
  main sample_spawn sample_root minimal_world =
  (mkWorld (disk minimal_world) tt
     [EvSpawn ["uv"; "lock"];
      EvSpawn ["uv"; "pip"; "compile"; "pyproject.toml"; "-o";
               "/srv/cvat/cvat/requirements/base.txt"]],
   inl (CalledProcessError 2
          ["uv"; "pip"; "compile"; "pyproject.toml"; "-o";
           "/srv/cvat/cvat/requirements/base.txt"])).
Proof.
  apply (failing_command_aborts_run unit sample_spawn sample_root
           minimal_world 1).
  - lia.
  - intros j Hj. assert (j = 0) as -> by lia. reflexivity.
  - vm_compute. discriminate.
Defined.


Lemma repeated_identifier_one_entry_witness :
  NoDup (keys repeated_mapping) /\
  (forall k,
     block_lines k repeated_mapping
       = occurrence_lines k None
           (content_lines (file_lines repeated_text))) /\
  forall k blk, In (k, blk) repeated_mapping ->
    lookup k repeated_mapping = Some blk /\
    blk = occurrence_lines k None
            (content_lines (file_lines repeated_text)) /\
    (exists tl, blk = k :: tl) /\
    count k blk = count k (content_lines (file_lines repeated_text)).
Proof.
  apply (repeated_identifier_one_entry repeated_text repeated_mapping).
  reflexivity.
Defined.

(** The block of the repeated identifier line of [repeated_text]. *)
Lemma repeated_identifier_block :
  lookup ("a==1" ++ nl) repeated_mapping
    = Some [("a==1" ++ nl)%string; ("    --hash=x" ++ nl)%string;
            ("a==1" ++ nl)%string; "    --hash=y"%string] /\
  count ("a==1" ++ nl) (file_lines repeated_text) = 2.
Proof. split; reflexivity. Qed.

(** ** Evaluations for the further properties *)

Lemma leading_comments_dropped_witness :
  parse_text (join [("# compiled by uv" ++ nl)%string; nl]
              ++ "foo==1.0" ++ nl)
  = parse_text ("foo==1.0" ++ nl).
Proof.
  apply (leading_comments_dropped [("# compiled by uv" ++ nl)%string; nl]);
    repeat constructor.
Defined.

Lemma parse_keeps_every_line_witness :
  Permutation (entry_lines repeated_mapping)
    (content_lines (file_lines repeated_text)).
Proof.
  apply (parse_keeps_every_line repeated_text repeated_mapping).
  reflexivity.
Defined.

Lemma keys_in_order_of_first_occurrence_witness :
  keys repeated_mapping =
  first_occurrences []
    (identifier_lines (content_lines (file_lines repeated_text))).
Proof.
  apply (keys_in_order_of_first_occurrence repeated_text repeated_mapping).
  reflexivity.
Defined.

Lemma distinct_identifiers_keep_order_witness :
  entry_lines plain_mapping = content_lines (file_lines plain_text) /\
  keys plain_mapping = identifier_lines (content_lines (file_lines plain_text))
  /\
  requirements_text plain_mapping [] =
  (header_text ++ nl ++ join (content_lines (file_lines plain_text)))%string
  /\
  exists skipped,
    Forall (fun l => blank_or_comment l = true) skipped /\
    universal_newlines plain_text =
    (join skipped ++ join (content_lines (file_lines plain_text)))%string.
Proof.
  apply (distinct_identifiers_keep_order plain_text plain_mapping).
  - reflexivity.
  - repeat constructor; simpl; intuition discriminate.
Defined.

Lemma parsed_mapping_shape_witness :
  (forall k blk, In (k, blk) repeated_mapping ->
     truthy k = true /\ startswith k " " = false /\
     forall l, In l blk ->
       truthy l = true /\ (l = k \/ startswith l " " = true)) /\
  (forall k blk rest, repeated_mapping = (k, blk) :: rest ->
     blank_or_comment k = false).
Proof.
  apply (parsed_mapping_shape repeated_text repeated_mapping). reflexivity.
Defined.

Lemma write_then_parse_witness :
  parse_text (requirements_text complete_mapping []) = inr complete_mapping.
Proof.
  apply (write_then_parse complete_text complete_mapping).
  - reflexivity.
  - repeat constructor.
Defined.

Lemma missing_file_aborts_pass_witness :
  exists w',
    deduplicate_requirements sample_root missing_world
      = (w', inl (FileNotFoundError Development)) /\
    trace w' =
      trace missing_world
      ++ flat_map (fun f => [EvOpen f; EvWrite f]) [Base; Production] /\
    (forall f, In f [Base; Production] ->
       read_file f (disk w') = rewritten (disk missing_world) f /\
       rewritten (disk missing_world) f <> None) /\
    (forall f, ~ In f [Base; Production] ->
       read_file f (disk w') = read_file f (disk missing_world)) /\
    outside w' = outside missing_world.
Proof.
  apply (missing_file_aborts_pass unit sample_root missing_world Development).
  - simpl. auto.
  - reflexivity.
  - intros f [<- | [<- | []]]; vm_compute; discriminate.
Defined.

Lemma shared_entries_stay_in_both_witness :
  (exists before after,
     read_file Production (disk shared_done)
       = Some (requirements_text before [Base] ++ join [shared_line]
               ++ join (entry_lines after))%string) /\
  (forall blk',
     In (shared_line, blk')
       [(shared_line, [shared_line; ("    # via dev" ++ nl)%string])] ->
     exists before after,
       read_file Development (disk shared_done)
         = Some (requirements_text before [Base] ++ join blk'
                 ++ join (entry_lines after))%string) /\
  (forall blk',
     In (shared_line, blk')
       [(("test==4.0" ++ nl)%string, [("test==4.0" ++ nl)%string])] ->
     ~ In shared_line
         (keys [(shared_line,
                 [shared_line; ("    # via dev" ++ nl)%string])]) ->
     exists before after,
       read_file Testing (disk shared_done)
         = Some (requirements_text before [Development] ++ join blk'
                 ++ join (entry_lines after))%string).
Proof.
  apply (shared_entries_stay_in_both unit sample_root shared_world
           shared_done [(foo_line, [foo_line])]
           [(foo_line, [foo_line]); (shared_line, [shared_line])]).
  - vm_compute. reflexivity.
  - eexists. split; [reflexivity | vm_compute; reflexivity].
  - eexists. split; [reflexivity | vm_compute; reflexivity].
  - eexists. split; [reflexivity | vm_compute; reflexivity].
  - eexists. split; [reflexivity | vm_compute; reflexivity].
  - simpl. auto.
  - simpl. intros [H | []]. vm_compute in H. discriminate H.
Defined.

Lemma rewritten_files_have_no_cr_witness :
  no_cr (header_text ++ "-r base.txt" ++ nl ++ nl ++ "dev==3.0" ++ nl)
  = true.
Proof.
  apply (rewritten_files_have_no_cr unit sample_root crlf_world crlf_done
           Development).
  - vm_compute. reflexivity.
  - vm_compute. reflexivity.
Defined.

Lemma main_prints_only_on_success_witness :
  exists events,
    trace (fst (main idle_spawn sample_root minimal_world))
      = trace minimal_world ++ events /\
    exists before,
      events = before ++ [EvPrint completion_message] /\
      forall line, ~ In (EvPrint line) before.
Proof.
  apply (main_prints_only_on_success unit idle_spawn sample_root
           minimal_world (fst (main idle_spawn sample_root minimal_world))
           (inr tt)).
  vm_compute. reflexivity.
Defined.

Lemma pass_errors_name_their_cause_witness :
  (unexpected_indentation = unexpected_indentation ->
   exists f text,
     In f [Base; Production; Development; Testing] /\
     read_file f (disk indented_world) = Some text /\ indented_start text /\
     forall g, In g (steps_before f) ->
       mapping_of g (disk indented_world) <> None) /\
  (forall f, unexpected_indentation = FileNotFoundError f ->
     In f [Base; Production; Development; Testing] /\
     read_file f (disk indented_world) = None /\
     forall g, In g (steps_before f) ->
       mapping_of g (disk indented_world) <> None) /\
  unexpected_indentation <> not_in_subpath.
Proof.
  apply (pass_errors_name_their_cause unit sample_root indented_world
           (fst (deduplicate_requirements sample_root indented_world))).
  vm_compute. reflexivity.
Defined.

Lemma main_errors_name_their_cause_witness :
  (forall rc cmd,
     CalledProcessError 2 compile_base = CalledProcessError rc cmd ->
     exists i,
       i < 6 /\ cmd = nth i (commands sample_root) [] /\
       rc = exit_status sample_spawn (commands sample_root) i
              (outside minimal_world, disk minimal_world) /\
       rc <> 0%Z /\
       (forall j, j < i ->
          exit_status sample_spawn (commands sample_root) j
            (outside minimal_world, disk minimal_world) = 0%Z) /\
       fst (main sample_spawn sample_root minimal_world)
       = spawned sample_spawn (firstn (S i) (commands sample_root))
           minimal_world) /\
  (CalledProcessError 2 compile_base = unexpected_indentation \/
   (exists f, CalledProcessError 2 compile_base = FileNotFoundError f) ->
   (forall j, j < 6 ->
      exit_status sample_spawn (commands sample_root) j
        (outside minimal_world, disk minimal_world) = 0%Z) /\
   exists f,
     In f [Base; Production; Development; Testing] /\
     raised_by f
       (disk (spawned sample_spawn (commands sample_root) minimal_world))
       (CalledProcessError 2 compile_base) /\
     forall g, In g (steps_before f) ->
       mapping_of g
         (disk (spawned sample_spawn (commands sample_root) minimal_world))
       <> None).
Proof.
  apply (main_errors_name_their_cause unit sample_spawn sample_root
           minimal_world
           (fst (main sample_spawn sample_root minimal_world))).
  vm_compute. reflexivity.
Defined.

Lemma pass_returns_iff_files_parse_witness :
  (exists w',
     deduplicate_requirements sample_root minimal_world = (w', inr tt)) <->
  (forall f text, In f [Base; Production; Development; Testing] ->
     read_file f (disk minimal_world) = Some text -> ~ indented_start text).
Proof.
  apply (pass_returns_iff_files_parse unit sample_root minimal_world).
  intros f [<- | [<- | [<- | [<- | []]]]]; eexists; reflexivity.
Defined.

(** The files that [crlf_world] is rewritten to. *)
Example crlf_done_files :
  read_file Base (disk crlf_done)
    = Some (header_text ++ nl ++ "foo==1.0" ++ nl)%string /\
  read_file Production (disk crlf_done)
    = Some (header_text ++ "-r base.txt" ++ nl ++ nl ++ "bar==2.0"
            ++ nl)%string /\
  read_file All (disk crlf_done)
    = Some (header_text ++ "-r development.txt" ++ nl ++ "-r production.txt"
            ++ nl ++ "-r testing.txt" ++ nl ++ nl)%string.
Proof. repeat split. Qed.

(** ** Evaluations of [write_requirements] on any paths *)


